(** * The panel-stack controller of [source/UI.cpp]

    A shallow embedding of the class [UI]: the stack of panels, the two
    queues of deferred mutations, the pointer-tracking fields, the event
    dispatch [UI::Handle], the frame phases [UI::StepAll] and [UI::DrawAll],
    and the mutation requests [Push], [Pop], [PopThrough] with the apply step
    [UI::PushOrPop].

    The panels, the screen, the clock and the command layer are collaborators
    of the controller; they are gathered in the class [Env], and every theorem
    holds for every instance of it. *)

From Stdlib Require Import List ZArith Lia Bool Arith Permutation.
Import ListNotations.

Set Implicit Arguments.

(** ** Panels, handles and raw pointers *)

(** A panel object is known to the controller by its address only. *)
Definition Panel := nat.
Bind Scope nat_scope with Panel.

(** [shared_ptr<Panel>]: [None] is the empty handle. *)
Definition handle := option Panel.

(** [const Panel *]: [None] is the null pointer. *)
Definition rawptr := option Panel.

(** [it->get() == panel] *)
Definition ptr_eqb (a b : rawptr) : bool :=
  match a, b with
  | Some x, Some y => Nat.eqb x y
  | None, None => true
  | _, _ => false
  end.

(** A floating-point value is kept as its bit pattern; the arithmetic on it
    belongs to [Env]. *)
Definition float := Z.
Bind Scope Z_scope with float.

(** [Command] values are only built and passed on by the controller, so they
    are kept as the constructor call that made them. *)
Inductive Command :=
| CommandOfKey (sym : Z)
| CommandOfEvent (data : Z)
| CommandOfGesture (gesture : Z).

(** ** The fields of [UI]

    The stack holds non-empty handles only: [PushOrPop] is the one place that
    appends to it, and it skips empty handles.  [zoneFingerId],
    [panelFingerId] and [lastTap] are declared in the header; the source
    writes [-1] for "no finger" and computes with [lastTap] as a [uint32_t]. *)
Record UI := mkUI {
  stack : list Panel;
  toPush : list handle;
  toPop : list rawptr;
  isDone : bool;
  canSave : bool;
  zoneFingerId : Z;
  panelFingerId : Z;
  lastTap : Z
}.

Definition set_stack (v : list Panel) (u : UI) : UI :=
  mkUI v (toPush u) (toPop u) (isDone u) (canSave u)
       (zoneFingerId u) (panelFingerId u) (lastTap u).
Definition set_toPush (v : list handle) (u : UI) : UI :=
  mkUI (stack u) v (toPop u) (isDone u) (canSave u)
       (zoneFingerId u) (panelFingerId u) (lastTap u).
Definition set_toPop (v : list rawptr) (u : UI) : UI :=
  mkUI (stack u) (toPush u) v (isDone u) (canSave u)
       (zoneFingerId u) (panelFingerId u) (lastTap u).
Definition set_isDone (v : bool) (u : UI) : UI :=
  mkUI (stack u) (toPush u) (toPop u) v (canSave u)
       (zoneFingerId u) (panelFingerId u) (lastTap u).
Definition set_canSave (v : bool) (u : UI) : UI :=
  mkUI (stack u) (toPush u) (toPop u) (isDone u) v
       (zoneFingerId u) (panelFingerId u) (lastTap u).
Definition set_zoneFingerId (v : Z) (u : UI) : UI :=
  mkUI (stack u) (toPush u) (toPop u) (isDone u) (canSave u)
       v (panelFingerId u) (lastTap u).
Definition set_panelFingerId (v : Z) (u : UI) : UI :=
  mkUI (stack u) (toPush u) (toPop u) (isDone u) (canSave u)
       (zoneFingerId u) v (lastTap u).
Definition set_lastTap (v : Z) (u : UI) : UI :=
  mkUI (stack u) (toPush u) (toPop u) (isDone u) (canSave u)
       (zoneFingerId u) (panelFingerId u) v.

(** The value the source assigns to a finger field to say "no finger". *)
Definition no_finger : Z := (-1)%Z.

(** ** Operations that touch the fields only *)

(** [UI::Pop] *)
Definition Pop (panel : rawptr) (u : UI) : UI :=
  set_toPop (toPop u ++ [panel]) u.

(** The loop of [UI::PopThrough] over [stack.rbegin() .. stack.rend()]:
    [rstack] is what is left of the reversed stack, [q] is [toPop]. *)
Fixpoint popThrough_loop (rstack : list Panel) (panel : rawptr)
    (q : list rawptr) : list rawptr :=
  match rstack with
  | [] => q
  | p :: rest =>
      let q' := q ++ [Some p] in
      if ptr_eqb (Some p) panel then q' else popThrough_loop rest panel q'
  end.

(** [UI::PopThrough] *)
Definition PopThrough (panel : rawptr) (u : UI) : UI :=
  set_toPop (popThrough_loop (rev (stack u)) panel (toPop u)) u.

(** [UI::Reset] *)
Definition Reset (u : UI) : UI :=
  set_isDone false (set_toPop [] (set_toPush [] (set_stack [] u))).

(** [UI::Quit] *)
Definition Quit (u : UI) : UI := set_isDone true u.

(** [UI::CanSave(bool)] *)
Definition CanSave (b : bool) (u : UI) : UI := set_canSave b u.

(** [UI::IsDone] *)
Definition IsDone (u : UI) : bool := isDone u.

(** [UI::IsEmpty] *)
Definition IsEmpty (u : UI) : bool :=
  match stack u, toPush u with
  | [], [] => true
  | _, _ => false
  end.

(** [UI::IsTop] *)
Definition IsTop (panel : rawptr) (u : UI) : bool :=
  match rev (stack u) with
  | [] => false
  | p :: _ => ptr_eqb (Some p) panel
  end.

(** [UI::Top]: the back of the push queue if there is one, else the back of
    the stack, else the empty handle. *)
Definition Top (u : UI) : handle :=
  match rev (toPush u) with
  | h :: _ => h
  | [] => match rev (stack u) with
          | p :: _ => Some p
          | [] => None
          end
  end.

(** [UI::Root]: the front of the stack if there is one, else the front of the
    push queue, else the empty handle. *)
Definition Root (u : UI) : handle :=
  match stack u with
  | p :: _ => Some p
  | [] => match toPush u with
          | h :: _ => h
          | [] => None
          end
  end.

(** The first loop of [UI::PushOrPop]: non-empty handles go on top of the
    stack, in the order of the queue. *)
Definition push_pending (tp : list handle) (st : list Panel) : list Panel :=
  fold_left (fun st h => match h with Some p => st ++ [p] | None => st end)
            tp st.

(** The inner loop of [UI::PushOrPop], from [stack.begin()] to [stack.end()]:
    the first handle that holds [panel] is erased and the loop is left. *)
Fixpoint erase_first (panel : rawptr) (st : list Panel) : list Panel :=
  match st with
  | [] => []
  | p :: rest =>
      if ptr_eqb (Some p) panel then rest else p :: erase_first panel rest
  end.

(** The second loop of [UI::PushOrPop]. *)
Definition pop_pending (tp : list rawptr) (st : list Panel) : list Panel :=
  fold_left (fun st panel => erase_first panel st) tp st.

(** [UI::PushOrPop] *)
Definition PushOrPop (u : UI) : UI :=
  set_toPop []
    (set_toPush []
       (set_stack
          (pop_pending (toPop u) (push_pending (toPush u) (stack u))) u)).

(** [count(toPop.begin(), toPop.end(), it->get())] as used by [Handle]. *)
Definition queued (p : Panel) (u : UI) : bool :=
  existsb (ptr_eqb (Some p)) (toPop u).

(** ** Events and panel methods *)

(** The events [UI::Handle] tells apart.  [SDL_OTHER] stands for every type
    no branch of [Handle] tests for. *)
Inductive SDL_Event :=
| SDL_MOUSEMOTION (state x y xrel yrel : Z)
| SDL_MOUSEBUTTONDOWN (button x y clicks : Z)
| SDL_MOUSEBUTTONUP (x y : Z)
| SDL_MOUSEWHEEL (x y : Z)
| SDL_FINGERDOWN (fingerId : Z) (x y : float)
| SDL_FINGERMOTION (fingerId : Z) (x y dx dy : float)
| SDL_FINGERUP (fingerId : Z) (x y : float)
| SDL_KEYDOWN (sym mods : Z) (repeat : bool)
| CommandEvent (data : Z) (pressed : bool)
| GestureEvent (code : Z)
| SDL_OTHER.

(** The methods of [Panel] the controller calls. *)
Inductive Method :=
| Drag (dx dy : float)
| Hover (x y : Z)
| ZoneMouseDown (x y : Z)
| Click (x y clicks : Z)
| RClick (x y : Z)
| ZoneMouseUp (x y : Z)
| Release (x y : Z)
| Scroll (dx dy : Z)
| FingerDown (x y fingerId : Z)
| FingerMove (x y fingerId : Z)
| FingerUp (x y fingerId : Z)
| KeyDown (key mods : Z) (command : Command) (isNewPress : bool)
| Gesture (gesture : Z)
| Step
| Draw
| ClearZones
| SetUI.

(** The methods that deliver an input event. *)
Definition is_delivery (m : Method) : bool :=
  match m with
  | Step | Draw | ClearZones | SetUI => false
  | _ => true
  end.

Definition is_SetUI (m : Method) : bool :=
  match m with SetUI => true | _ => false end.
Definition is_Release (m : Method) : bool :=
  match m with Release _ _ => true | _ => false end.

(** What a panel can ask of the controller from inside one of its methods,
    through the pointer [SetUI] gave it.  A panel that pushes passes a panel
    it has made, so the request carries a panel and not a handle. *)
Inductive Request :=
| ReqPush (p : Panel)
| ReqPop (panel : rawptr)
| ReqPopThrough (panel : rawptr)
| ReqQuit
| ReqCanSave (b : bool).

(** One call of a panel method, with the stack the controller held when it
    made the call. *)
Record Call := mkCall {
  callee : Panel;
  method : Method;
  seen : list Panel
}.

(** A 32-bit [int] after an operation that left its range: the value is
    taken modulo 2^32 into [-2^31, 2^31). *)
Definition wrap32 (z : Z) : Z :=
  ((z + 2 ^ 31) mod 2 ^ 32 - 2 ^ 31)%Z.

(** ** The collaborators *)

Class Env := {
  (** the state of the panels, the screen, the clock and the command layer *)
  W : Type;
  (** [Screen::Zoom()], [Left()], [Top()], [Width()], [Height()] *)
  Screen_Zoom : W -> Z;
  Screen_Left : W -> Z;
  Screen_Top : W -> Z;
  Screen_Width : W -> Z;
  Screen_Height : W -> Z;
  (** [rel * 100. / Screen::Zoom()] *)
  drag_scale : Z -> Z -> float;
  (** [int x = (v - .5) * extent] *)
  finger_pos : float -> Z -> Z;
  (** [int dx = v * extent] *)
  finger_delta : float -> Z -> Z;
  (** an [int] passed where [Drag] takes a [double] *)
  float_of_int : Z -> float;
  (** [SDL_GetTicks()], a [uint32_t] *)
  SDL_GetTicks : W -> Z;
  (** [Command::InjectOnce] *)
  InjectOnce : Command -> W -> W;
  (** a method of a panel: its result, what it does to the world, and the
      requests it makes of the controller, in order; it is given the
      controller as its queries would show it *)
  invoke : Panel -> Method -> UI -> W -> bool * W * list Request;
  (** [Panel::SetUI] *)
  wire : Panel -> W -> W;
  (** [Panel::TrapAllEvents], [Panel::IsFullScreen] *)
  TrapAllEvents : Panel -> W -> bool;
  IsFullScreen : Panel -> W -> bool
}.

Section Controller.

Context {E : Env}.

(** The controller, the world around it, and the calls made so far. *)
Record State := mkState {
  ui : UI;
  world : W;
  log : list Call
}.

Definition on_ui (f : UI -> UI) (s : State) : State :=
  mkState (f (ui s)) (world s) (log s).

(** The body of [UI::Push(const shared_ptr<Panel> &)] for a handle that holds
    [p]: [SetUI] first, then the queue. *)
Definition push_panel (p : Panel) (s : State) : State :=
  mkState (set_toPush (toPush (ui s) ++ [Some p]) (ui s))
          (wire p (world s))
          (log s ++ [mkCall p SetUI (stack (ui s))]).

(** [UI::Push]: the handle is dereferenced without a test, so the call has
    no defined result on an empty handle. *)
Definition Push (h : handle) (s : State) : option State :=
  match h with
  | None => None
  | Some p => Some (push_panel p s)
  end.

Definition apply_request (s : State) (r : Request) : State :=
  match r with
  | ReqPush p => push_panel p s
  | ReqPop panel => on_ui (Pop panel) s
  | ReqPopThrough panel => on_ui (PopThrough panel) s
  | ReqQuit => on_ui Quit s
  | ReqCanSave b => on_ui (CanSave b) s
  end.

(** The controller calls method [m] of panel [p]. *)
Definition call (p : Panel) (m : Method) (s : State) : bool * State :=
  let '(r, w, reqs) := invoke p m (ui s) (world s) in
  (r, fold_left apply_request reqs
        (mkState (ui s) w (log s ++ [mkCall p m (stack (ui s))]))).

(** [Screen::Left() + x * 100 / Screen::Zoom()] and the same from the top,
    in 32-bit [int]: the product and the sum wrap around, the quotient is
    truncated. *)
Definition logical_x (w : W) (x : Z) : Z :=
  wrap32 (Screen_Left w + Z.quot (wrap32 (x * 100)) (Screen_Zoom w)).
Definition logical_y (w : W) (y : Z) : Z :=
  wrap32 (Screen_Top w + Z.quot (wrap32 (y * 100)) (Screen_Zoom w)).

(** [(now - lastTap) > 500 ? 1 : 2] on [uint32_t]. *)
Definition click_count (now last : Z) : Z :=
  if (500 <? (now - last) mod 2 ^ 32)%Z then 1%Z else 2%Z.

(** The third step of the [SDL_FINGERDOWN] branch, the fallback to a click:
    the clock is read, the click goes out, the finger is remembered if the
    click was taken, and [lastTap] is set. *)
Definition click_fallback (p : Panel) (x y fingerId : Z) (s : State)
    : bool * State :=
  let now := SDL_GetTicks (world s) in
  let (h, s') := call p (Click x y (click_count now (lastTap (ui s)))) s in
  (h, on_ui (set_lastTap now)
        (if h then on_ui (set_panelFingerId fingerId) s' else s')).

(** One turn of the loop of [UI::Handle]: the chain of tests on [event.type]
    for the panel [p] the iterator is at. *)
Definition turn (ev : SDL_Event) (p : Panel) (handled : bool) (s : State)
    : bool * State :=
  match ev with
  | SDL_MOUSEMOTION state x y xrel yrel =>
      if negb (Z.land state 1 =? 0)%Z then
        call p (Drag (drag_scale xrel (Screen_Zoom (world s)))
                     (drag_scale yrel (Screen_Zoom (world s)))) s
      else
        call p (Hover (logical_x (world s) x) (logical_y (world s) y)) s
  | SDL_MOUSEBUTTONDOWN button x y clicks =>
      let lx := logical_x (world s) x in
      let ly := logical_y (world s) y in
      if (button =? 1)%Z then
        let (h, s1) := call p (ZoneMouseDown lx ly) s in
        if negb h then call p (Click lx ly clicks) s1 else (h, s1)
      else if (button =? 3)%Z then call p (RClick lx ly) s
      else (handled, s)
  | SDL_MOUSEBUTTONUP x y =>
      let lx := logical_x (world s) x in
      let ly := logical_y (world s) y in
      let (h, s1) := call p (ZoneMouseUp lx ly) s in
      if negb h then call p (Release lx ly) s1 else (h, s1)
  | SDL_MOUSEWHEEL x y => call p (Scroll x y) s
  | SDL_FINGERDOWN fingerId fx fy =>
      let x := finger_pos fx (Screen_Width (world s)) in
      let y := finger_pos fy (Screen_Height (world s)) in
      let (h1, s1) :=
        if negb handled then
          let (h, s') := call p (ZoneMouseDown x y) s in
          (h, if h then on_ui (set_zoneFingerId fingerId) s' else s')
        else (handled, s) in
      let (h2, s2) :=
        if negb h1 then
          let (_, s') := call p (Hover x y) s1 in
          call p (FingerDown x y fingerId) s'
        else (h1, s1) in
      if negb h2 then click_fallback p x y fingerId s2 else (h2, s2)
  | SDL_FINGERMOTION fingerId fx fy fdx fdy =>
      let x := finger_pos fx (Screen_Width (world s)) in
      let y := finger_pos fy (Screen_Height (world s)) in
      let dx := finger_delta fdx (Screen_Width (world s)) in
      let dy := finger_delta fdy (Screen_Height (world s)) in
      let (h1, s1) :=
        if negb handled then call p (FingerMove x y fingerId) s
        else (handled, s) in
      if negb h1 && (panelFingerId (ui s1) =? fingerId)%Z then
        call p (Drag (float_of_int dx) (float_of_int dy)) s1
      else (h1, s1)
  | SDL_FINGERUP fingerId fx fy =>
      let x := finger_pos fx (Screen_Width (world s)) in
      let y := finger_pos fy (Screen_Height (world s)) in
      let (h1, s1) :=
        if negb handled && (zoneFingerId (ui s) =? fingerId)%Z then
          let (h, s') := call p (ZoneMouseUp x y) s in
          (h, on_ui (set_zoneFingerId no_finger) s')
        else (handled, s) in
      let (h2, s2) :=
        if negb h1 then call p (FingerUp x y fingerId) s1 else (h1, s1) in
      if negb h2 && (panelFingerId (ui s2) =? fingerId)%Z then
        let (h, s') := call p (Release x y) s2 in
        (h, on_ui (set_panelFingerId no_finger) s')
      else (h2, s2)
  | SDL_KEYDOWN sym mods repeat =>
      call p (KeyDown sym mods (CommandOfKey sym) (negb repeat)) s
  | CommandEvent data pressed =>
      if pressed then call p (KeyDown 0 0 (CommandOfEvent data) true) s
      else (handled, s)
  | GestureEvent code =>
      let (h, s1) := call p (Gesture code) s in
      if negb h then
        let command := CommandOfGesture code in
        call p (KeyDown 0 0 command true)
             (mkState (ui s1) (InjectOnce command (world s1)) (log s1))
      else (h, s1)
  | SDL_OTHER => (handled, s)
  end.

(** The loop of [UI::Handle].  [i] is the iterator, as its distance from
    [stack.begin()]; every turn reads the stack the controller holds then. *)
Fixpoint walk (ev : SDL_Event) (i : nat) (handled : bool) (s : State)
    : bool * State :=
  match i with
  | O => (handled, s)
  | S j =>
      if handled then (handled, s)
      else
        match nth_error (stack (ui s)) j with
        | None => (handled, s)
        | Some p =>
            if queued p (ui s) then walk ev j handled s
            else
              let (h, s') := turn ev p handled s in
              if TrapAllEvents p (world s') then (h, s')
              else walk ev j h s'
        end
  end.

(** [UI::Handle] *)
Definition Handle (ev : SDL_Event) (s : State) : bool * State :=
  let (handled, s') := walk ev (length (stack (ui s))) false s in
  (handled, on_ui PushOrPop s').

(** A range-based [for] over the stack that calls [m] on every panel: [n]
    handles are left, the next one is at index [i]. *)
Fixpoint for_stack (m : Method) (n i : nat) (s : State) : State :=
  match n with
  | O => s
  | S k =>
      match nth_error (stack (ui s)) i with
      | None => s
      | Some p => for_stack m k (S i) (snd (call p m s))
      end
  end.

(** [UI::StepAll] *)
Definition StepAll (s : State) : State :=
  let s1 := on_ui PushOrPop s in
  for_stack Step (length (stack (ui s1))) 0 s1.

(** The search of [UI::DrawAll] for the topmost full-screen panel: the
    iterator starts at [i] and the result is where it stops. *)
Fixpoint find_fullscreen (st : list Panel) (w : W) (i : nat) : nat :=
  match i with
  | O => O
  | S j =>
      match nth_error st j with
      | None => j
      | Some p => if IsFullScreen p w then j else find_fullscreen st w j
      end
  end.

(** [UI::DrawAll] *)
Definition DrawAll (s : State) : State :=
  let s1 := for_stack ClearZones (length (stack (ui s))) 0 s in
  let it := find_fullscreen (stack (ui s1)) (world s1)
                            (length (stack (ui s1))) in
  for_stack Draw (length (stack (ui s1)) - it) it s1.

End Controller.

(** ** The same steps written from the words of the specification

    These follow the prose, not the source; they are only compared with the
    definitions above. *)

(** "each requested pop identity is searched for top-to-bottom (erasing at
    most one matching instance)" *)
Definition erase_topmost (panel : rawptr) (st : list Panel) : list Panel :=
  rev (erase_first panel (rev st)).

Definition pop_pending_top_down (tp : list rawptr) (st : list Panel)
    : list Panel :=
  fold_left (fun st panel => erase_topmost panel st) tp st.

(** "[Reset()] yields [IsEmpty() == true], [IsDone() == false], and no
    residual pointer-ownership state" *)
Definition Reset_leaves_no_owner (u : UI) : Prop :=
  IsEmpty (Reset u) = true /\
  IsDone (Reset u) = false /\
  zoneFingerId (Reset u) = no_finger /\
  panelFingerId (Reset u) = no_finger.

(** "[PopThrough(P)] removes exactly the panels from the top of the stack
    down to and including P (if P is in the stack)"; if P is absent nothing
    is above the top of the walk, and "the rest" is left untouched. *)
Fixpoint drop_through (p : Panel) (rstack : list Panel) : list Panel :=
  match rstack with
  | [] => []
  | q :: rest => if Nat.eqb q p then rest else drop_through p rest
  end.

Definition stack_after_PopThrough_spec (panel : rawptr) (st : list Panel)
    : list Panel :=
  match panel with
  | Some p =>
      if existsb (Nat.eqb p) st then rev (drop_through p (rev st)) else st
  | None => st
  end.

(** The handles of a push queue that are not empty, in order. *)
Definition pushed (tp : list handle) : list Panel :=
  flat_map (fun h => match h with Some p => [p] | None => [] end) tp.

(** "a generic click whose click-count is ... 2" for a second tap "within
    500 ms", and 1 for taps "spaced >= 500 ms apart" *)
Definition spec_click_count (elapsed : Z) : Z :=
  if (elapsed <? 500)%Z then 2%Z else 1%Z.

(** ** What a run of the controller shows *)

Section Observations.

Context {E : Env}.

(** The calls made between two states of one run. *)
Definition added (s s' : State) : list Call :=
  skipn (length (log s)) (log s').

(** The calls other than the wiring done by [Push]: which panel, which
    method. *)
Definition panel_calls (l : list Call) : list (Panel * Method) :=
  map (fun c => (callee c, method c))
      (filter (fun c => negb (is_SetUI (method c))) l).

(** The input events delivered to panel [p]. *)
Definition deliveries_to (p : Panel) (l : list Call) : list Call :=
  filter (fun c => is_delivery (method c) && Nat.eqb (callee c) p) l.

(** The panels [SetUI] has been called on. *)
Definition wired_panels (l : list Call) : list Panel :=
  map callee (filter (fun c => is_SetUI (method c)) l).

(** Every panel the controller holds has been given the controller, and no
    other method was called on a panel before that. *)
Definition wired (s : State) : Prop :=
  (forall p, In p (stack (ui s)) \/ In (Some p) (toPush (ui s)) ->
             In p (wired_panels (log s))) /\
  (forall before c after,
      log s = before ++ c :: after ->
      is_SetUI (method c) = false ->
      In (callee c) (wired_panels before)).

(** Some panel of the stack is not waiting to be popped, so some panel takes
    a turn in [Handle]. *)
Definition takes_turn (s : State) : bool :=
  existsb (fun p => negb (queued p (ui s))) (stack (ui s)).

(** "the zone-owning finger, the drag-owning finger is reset to none on the
    matching up-event regardless of whether that event was ultimately
    handled" *)
Definition up_clears_owners (f : Z) (fx fy : float) (s : State) : Prop :=
  let s' := snd (Handle (SDL_FINGERUP f fx fy) s) in
  (zoneFingerId (ui s) = f -> zoneFingerId (ui s') = no_finger) /\
  (panelFingerId (ui s) = f -> panelFingerId (ui s') = no_finger).

(** The loop of [Handle], entered with the iterator at [i], the flag [h]
    and the state [s], comes to stand at its head with the iterator at [i'],
    the flag [h'] and the state [s']. *)
Inductive walk_at (ev : SDL_Event)
    : nat -> bool -> State -> nat -> bool -> State -> Prop :=
| walk_here i h s : walk_at ev i h s i h s
| walk_skip j s p i' h' s' :
    nth_error (stack (ui s)) j = Some p ->
    queued p (ui s) = true ->
    walk_at ev j false s i' h' s' ->
    walk_at ev (S j) false s i' h' s'
| walk_turn j s p h1 s1 i' h' s' :
    nth_error (stack (ui s)) j = Some p ->
    queued p (ui s) = false ->
    turn ev p false s = (h1, s1) ->
    TrapAllEvents p (world s1) = false ->
    walk_at ev j h1 s1 i' h' s' ->
    walk_at ev (S j) false s i' h' s'.

(** "every panel whose identity is present in the pending-pop queue at the
    time the walk reaches it" receives nothing "during that call": the walk
    of [Handle] on [s0] has come to handle [j] in state [s], the panel [p] of
    that handle is in the pop queue, and no event is delivered to [p] in the
    whole call. *)
Definition skipped_panel_untouched (ev : SDL_Event) (s0 : State) (j : nat)
    (s : State) (p : Panel) : Prop :=
  walk_at ev (length (stack (ui s0))) false s0 (S j) false s ->
  nth_error (stack (ui s)) j = Some p ->
  queued p (ui s) = true ->
  deliveries_to p (added s0 (snd (Handle ev s0))) = [].

(** What the host of the controller can do with it.  The host pushes
    handles that hold a panel. *)
Inductive HostCall :=
| HPush (p : Panel)
| HPop (panel : rawptr)
| HPopThrough (panel : rawptr)
| HHandle (ev : SDL_Event)
| HStepAll
| HDrawAll
| HReset
| HQuit
| HCanSave (b : bool).

Definition host_step (s : State) (c : HostCall) : State :=
  match c with
  | HPush p => push_panel p s
  | HPop panel => on_ui (Pop panel) s
  | HPopThrough panel => on_ui (PopThrough panel) s
  | HHandle ev => snd (Handle ev s)
  | HStepAll => StepAll s
  | HDrawAll => DrawAll s
  | HReset => on_ui Reset s
  | HQuit => on_ui Quit s
  | HCanSave b => on_ui (CanSave b) s
  end.

Definition run (cs : list HostCall) (s : State) : State :=
  fold_left host_step cs s.

(** A controller that has just been made: nothing in the stack, nothing
    pending, no call yet. *)
Definition fresh (w : W) : State :=
  mkState (mkUI [] [] [] false false no_finger no_finger 0) w [].

(** Panel [p] has had a turn between [s] and [s']: the stack is the same,
    the pop queue has only grown, every call saw the stack of [s], every call
    other than [SetUI] was made on [p], and the push queue has grown by the
    panels [SetUI] was called on. *)
Definition turn_rel (p : Panel) (s s' : State) : Prop :=
  stack (ui s') = stack (ui s) /\
  (exists q, toPop (ui s') = toPop (ui s) ++ q) /\
  (exists l,
      log s' = log s ++ l /\
      Forall (fun c => seen c = stack (ui s) /\
                       (is_SetUI (method c) = false -> callee c = p)) l /\
      toPush (ui s')
        = toPush (ui s)
          ++ map (fun c => Some (callee c))
                 (filter (fun c => is_SetUI (method c)) l)).

(** The fields a panel cannot reach: no request changes them. *)
Definition same_fingers (s s' : State) : Prop :=
  zoneFingerId (ui s') = zoneFingerId (ui s) /\
  panelFingerId (ui s') = panelFingerId (ui s) /\
  lastTap (ui s') = lastTap (ui s).

(** The requests a panel makes wire the panels it pushes and fill the two
    queues; nothing else. *)
Definition wiring_only (s s' : State) : Prop :=
  stack (ui s') = stack (ui s) /\
  world s' = fold_left (fun w c => wire (callee c) w) (added s s') (world s) /\
  (exists q, toPop (ui s') = toPop (ui s) ++ q) /\
  (exists l,
      log s' = log s ++ l /\
      Forall (fun c => method c = SetUI /\ seen c = stack (ui s)) l /\
      toPush (ui s') = toPush (ui s) ++ map (fun c => Some (callee c)) l).

(** The controller has walked over its stack between [s] and [s']: as
    [turn_rel], with every call other than [SetUI] made on some panel of the
    stack. *)
Definition run_rel (s s' : State) : Prop :=
  stack (ui s') = stack (ui s) /\
  (exists q, toPop (ui s') = toPop (ui s) ++ q) /\
  (exists l,
      log s' = log s ++ l /\
      Forall (fun c => seen c = stack (ui s) /\
                       (is_SetUI (method c) = false ->
                        In (callee c) (stack (ui s)))) l /\
      toPush (ui s')
        = toPush (ui s)
          ++ map (fun c => Some (callee c))
                 (filter (fun c => is_SetUI (method c)) l)).

(** What a touch-up can do between [s] and [s']: the zone owner is kept or
    cleared; the drag owner is cleared if [Release] was called and kept if it
    was not. *)
Definition up_rel (s s' : State) : Prop :=
  (zoneFingerId (ui s') = zoneFingerId (ui s) \/
   zoneFingerId (ui s') = no_finger) /\
  exists l,
    log s' = log s ++ l /\
    (existsb (fun c => is_Release (method c)) l = true ->
     panelFingerId (ui s') = no_finger) /\
    (existsb (fun c => is_Release (method c)) l = false ->
     panelFingerId (ui s') = panelFingerId (ui s)).

End Observations.

(** ** Further observations *)

Definition is_Drag (m : Method) : bool :=
  match m with Drag _ _ => true | _ => false end.

(** The events for which no branch of [Handle] calls a panel: a type it does
    not test for, a mouse button other than 1 and 3, a command event whose
    button is not pressed. *)
Definition undelivered (ev : SDL_Event) : bool :=
  match ev with
  | SDL_OTHER => true
  | SDL_MOUSEBUTTONDOWN button _ _ _ =>
      negb (button =? 1)%Z && negb (button =? 3)%Z
  | CommandEvent _ pressed => negb pressed
  | _ => false
  end.

(** The events whose branch of [Handle] assigns a finger field or
    [lastTap]. *)
Definition assigns_owner (ev : SDL_Event) : bool :=
  match ev with
  | SDL_FINGERDOWN _ _ _ | SDL_FINGERUP _ _ _ => true
  | _ => false
  end.

(** [l1] is [l2] with some handles taken out, the others in their order. *)
Inductive subseq : list Panel -> list Panel -> Prop :=
| subseq_nil : subseq [] []
| subseq_keep x l1 l2 : subseq l1 l2 -> subseq (x :: l1) (x :: l2)
| subseq_drop x l1 l2 : subseq l1 l2 -> subseq l1 (x :: l2).

(** No handle of the queue is empty. *)
Definition all_hold (tp : list handle) : Prop :=
  Forall (fun h => h <> None) tp.

Section HostCalls.

Context {E : Env}.

(** The host does not push. *)
Definition no_push (cs : list HostCall) : bool :=
  forallb (fun c => match c with HPush _ => false | _ => true end) cs.

End HostCalls.

(** ** A world that keeps the requests

    To speak of the requests the panels make during a call, the world is
    given a second component in which every method of a panel leaves the
    requests it returns; nothing reads it. *)

(** The panels pushed by a list of requests, in order. *)
Definition asked_pushes (reqs : list Request) : list Panel :=
  flat_map (fun r => match r with ReqPush p => [p] | _ => [] end) reqs.

(** The pointers a list of requests puts in the pop queue, in order, when
    the stack is [st]: a [Pop] its pointer, a [PopThrough] what its loop over
    the stack finds. *)
Definition asked_pops (st : list Panel) (reqs : list Request) : list rawptr :=
  flat_map (fun r => match r with
                     | ReqPop panel => [panel]
                     | ReqPopThrough panel => popThrough_loop (rev st) panel []
                     | _ => []
                     end) reqs.

(** How many handles of [st] hold [p], and how many pointers of [tq] are
    [p]. *)
Definition occurrences (p : Panel) (st : list Panel) : nat :=
  length (filter (Nat.eqb p) st).

Definition requests_for (p : Panel) (tq : list rawptr) : nat :=
  length (filter (ptr_eqb (Some p)) tq).

Section Recording.

Variable E : Env.

Definition recording : Env := {|
  W := (@W E * list Request)%type;
  Screen_Zoom := fun w => Screen_Zoom (fst w);
  Screen_Left := fun w => Screen_Left (fst w);
  Screen_Top := fun w => Screen_Top (fst w);
  Screen_Width := fun w => Screen_Width (fst w);
  Screen_Height := fun w => Screen_Height (fst w);
  drag_scale := drag_scale;
  finger_pos := finger_pos;
  finger_delta := finger_delta;
  float_of_int := float_of_int;
  SDL_GetTicks := fun w => SDL_GetTicks (fst w);
  InjectOnce := fun c w => (InjectOnce c (fst w), snd w);
  invoke := fun p m u w =>
              let '(r, w', reqs) := invoke p m u (fst w) in
              (r, (w', snd w ++ reqs), reqs);
  wire := fun p w => (wire p (fst w), snd w);
  TrapAllEvents := fun p w => TrapAllEvents p (fst w);
  IsFullScreen := fun p w => IsFullScreen p (fst w)
|}.

(** A state of the recording world without its record, and a state of [E]
    with an empty record. *)
Definition erase (s : @State recording) : @State E :=
  @mkState E (ui s) (fst (world s)) (log s).

Definition record (s : @State E) : @State recording :=
  @mkState recording (ui s) (world s, []) (log s).

Definition asked (s : @State recording) : list Request := snd (world s).

(** The requests the panels make while [Handle] walks the stack of [s], in
    the order in which they make them. *)
Definition requests_during (ev : SDL_Event) (s : @State E) : list Request :=
  asked (snd (@walk recording ev (length (stack (ui s))) false (record s))).

(** Between [s] and [s'] the queues have grown by what was asked for. *)
Definition asked_rel (s s' : @State recording) : Prop :=
  stack (ui s') = stack (ui s) /\
  exists reqs,
    asked s' = asked s ++ reqs /\
    toPush (ui s') = toPush (ui s) ++ map Some (asked_pushes reqs) /\
    toPop (ui s') = toPop (ui s) ++ asked_pops (stack (ui s)) reqs.

End Recording.

(** ** A small world to run the controller in

    The clock is the whole world.  Panel 2 is a full-screen panel that traps
    all events and takes finger-up notifications; panel 3 answers a click by
    popping itself and pushing panel 4; panel 5 has a zone everywhere; panel 6
    pops itself when its zones are asked about a mouse press and takes
    nothing; every other panel takes nothing and asks for nothing. *)
Definition demo_invoke (p : Panel) (m : Method) (u : UI) (w : Z)
    : bool * Z * list Request :=
  match p, m with
  | 2, FingerUp _ _ _ => (true, w, [])
  | 3, Click _ _ _ => (true, w, [ReqPop (Some 3); ReqPush 4])
  | 5, ZoneMouseDown _ _ => (true, w, [])
  | 6, ZoneMouseDown _ _ => (false, w, [ReqPop (Some 6)])
  | _, _ => (false, w, [])
  end.

Definition demo : Env := {|
  W := Z;
  Screen_Zoom := fun _ => 100%Z;
  Screen_Left := fun _ => (-500)%Z;
  Screen_Top := fun _ => (-400)%Z;
  Screen_Width := fun _ => 1000%Z;
  Screen_Height := fun _ => 800%Z;
  drag_scale := fun rel zoom => Z.quot (rel * 100) zoom;
  finger_pos := fun v extent => v;
  finger_delta := fun v extent => v;
  float_of_int := fun v => v;
  SDL_GetTicks := fun w => (w mod 2 ^ 32)%Z;
  InjectOnce := fun _ w => w;
  invoke := demo_invoke;
  wire := fun _ w => w;
  TrapAllEvents := fun p _ => Nat.eqb p 2;
  IsFullScreen := fun p _ => Nat.eqb p 2
|}.

(** A controller with the given stack and nothing pending. *)
Definition idle (st : list Panel) : UI :=
  mkUI st [] [] false false no_finger no_finger 0.

(** The controller after finger 7 has pressed a zone of panel 5. *)
Definition after_zone_press : UI :=
  ui (snd (Handle (E:=demo) (SDL_FINGERDOWN 7%Z 10%Z 10%Z)
             (mkState (E:=demo) (idle [5]) 0%Z []))).

(** Panel 1 sits in the stack twice and is asked to go once. *)
Definition twice_in_stack : UI :=
  mkUI [1; 2; 1] [] [Some 1] false false no_finger no_finger 0.

(** Panel 1 alone, tapped by finger 7 when the clock shows 1000 ms and again
    when it shows 1500 ms. *)
Definition tap : SDL_Event := SDL_FINGERDOWN 7%Z 10%Z 10%Z.

Definition first_tap : State (E:=demo) :=
  snd (Handle (E:=demo) tap (mkState (E:=demo) (idle [1]) 1000%Z [])).

Definition second_tap : State (E:=demo) :=
  snd (Handle (E:=demo) tap
         (mkState (E:=demo) (ui first_tap) 1500%Z (log first_tap))).

(** Finger 3 owns a drag; the only panel is panel 2, which takes finger-up
    notifications. *)
Definition dragging_over_2 : State (E:=demo) :=
  mkState (E:=demo) (mkUI [2] [] [] false false no_finger 3%Z 0%Z) 0%Z [].

(** Finger 3 owns a zone and a drag, and the stack is empty. *)
Definition owners_no_panel : State (E:=demo) :=
  mkState (E:=demo) (mkUI [] [] [] false false 3%Z 3%Z 0%Z) 0%Z [].

(** Finger 3 owns a zone and a drag over panel 1, which takes nothing. *)
Definition owners_over_1 : State (E:=demo) :=
  mkState (E:=demo) (mkUI [1] [] [] false false 3%Z 3%Z 0%Z) 0%Z [].

(** Panel 6 has been pushed twice and is pressed with the mouse. *)
Definition press : SDL_Event := SDL_MOUSEBUTTONDOWN 1 10 10 1.

Definition pushed_twice : State (E:=demo) :=
  run (E:=demo) [HPush 6; HPush 6; HStepAll] (fresh (E:=demo) 0%Z).

(** ** Lists *)

Lemma ptr_eqb_Some (p q : Panel) :
  ptr_eqb (Some p) (Some q) = Nat.eqb p q.
Proof. reflexivity. Qed.

Lemma ptr_eqb_eq (a b : rawptr) : ptr_eqb a b = true <-> a = b.
Proof.
  destruct a as [x|], b as [y|]; simpl; split; intro H;
    try discriminate; try reflexivity.
  - apply Nat.eqb_eq in H. now subst.
  - injection H as ->. apply Nat.eqb_refl.
Qed.

Lemma ptr_eqb_refl (a : rawptr) : ptr_eqb a a = true.
Proof. now apply ptr_eqb_eq. Qed.

Lemma ptr_eqb_neq (a b : rawptr) : ptr_eqb a b = false <-> a <> b.
Proof.
  rewrite <- ptr_eqb_eq. destruct (ptr_eqb a b); split; intro H;
    congruence.
Qed.

Lemma erase_first_null (st : list Panel) : erase_first None st = st.
Proof.
  induction st as [|p st IH]; simpl; [reflexivity|]. now rewrite IH.
Qed.

Lemma erase_first_absent (p : Panel) (st : list Panel) :
  ~ In p st -> erase_first (Some p) st = st.
Proof.
  induction st as [|q st IH]; simpl; intro H; [reflexivity|].
  destruct (Nat.eqb_spec q p) as [->|_].
  - elim H. now left.
  - rewrite IH; [reflexivity|]. intro; apply H; now right.
Qed.

Lemma erase_first_lowest (p : Panel) (below above : list Panel) :
  ~ In p below ->
  erase_first (Some p) (below ++ p :: above) = below ++ above.
Proof.
  induction below as [|q below IH]; simpl; intro H.
  - now rewrite Nat.eqb_refl.
  - destruct (Nat.eqb_spec q p) as [->|_].
    + elim H. now left.
    + rewrite IH; [reflexivity|]. intro; apply H; now right.
Qed.

Lemma erase_first_length (panel : rawptr) (st : list Panel) :
  length st <= S (length (erase_first panel st)).
Proof.
  induction st as [|q st IH]; cbn [erase_first length]; [lia|].
  destruct (ptr_eqb (Some q) panel); cbn [length]; lia.
Qed.

Lemma erase_first_incl (panel : rawptr) (st : list Panel) :
  incl (erase_first panel st) st.
Proof.
  induction st as [|q st IH]; cbn [erase_first]; [apply incl_refl|].
  destruct (ptr_eqb (Some q) panel).
  - apply incl_tl, incl_refl.
  - intros x [->|Hx]; [now left|right; now apply IH].
Qed.

Lemma in_split_first (p : Panel) (l : list Panel) :
  In p l -> exists l1 l2, l = l1 ++ p :: l2 /\ ~ In p l1.
Proof.
  induction l as [|q l IH]; simpl; [tauto|]. intro H.
  destruct (Nat.eq_dec q p) as [->|Hne].
  - exists [], l. split; [reflexivity|]. simpl; tauto.
  - destruct H as [H|H]; [contradiction|].
    destruct (IH H) as (l1 & l2 & -> & Hn).
    exists (q :: l1), l2. split; [reflexivity|].
    simpl. intros [Hq|Hq]; [contradiction|now apply Hn].
Qed.

Lemma push_pending_pushed (tp : list handle) (st : list Panel) :
  push_pending tp st = st ++ pushed tp.
Proof.
  unfold push_pending, pushed. revert st.
  induction tp as [|h tp IH]; simpl; intro st.
  - now rewrite app_nil_r.
  - rewrite IH. destruct h as [p|]; simpl; [|reflexivity].
    now rewrite <- app_assoc.
Qed.

Lemma pop_pending_incl (tp : list rawptr) (st : list Panel) :
  incl (pop_pending tp st) st.
Proof.
  unfold pop_pending. revert st.
  induction tp as [|r tp IH]; simpl; intro st; [apply incl_refl|].
  eapply incl_tran; [apply IH|apply erase_first_incl].
Qed.

Lemma pop_pending_app (tp1 tp2 : list rawptr) (st : list Panel) :
  pop_pending (tp1 ++ tp2) st = pop_pending tp2 (pop_pending tp1 st).
Proof. apply fold_left_app. Qed.

(** Popping a block of the stack, in any order, when none of its panels also
    sits lower in the stack. *)
Lemma pop_pending_block (l m l1 l2 : list Panel) :
  Permutation l m ->
  (forall x, In x m -> ~ In x l1) ->
  pop_pending (map Some l) (l1 ++ m ++ l2) = l1 ++ l2.
Proof.
  revert m. induction l as [|x l IH]; intros m Hp Hd.
  - apply Permutation_nil in Hp. now subst.
  - assert (Hx : In x m) by (eapply Permutation_in; [exact Hp|now left]).
    destruct (in_split_first _ _ Hx) as (m1 & m2 & -> & Hn).
    apply Permutation_cons_app_inv in Hp.
    simpl. unfold pop_pending in *. simpl.
    replace (l1 ++ (m1 ++ x :: m2) ++ l2)
      with ((l1 ++ m1) ++ x :: (m2 ++ l2))
      by (rewrite <- !app_assoc; reflexivity).
    rewrite erase_first_lowest.
    + replace ((l1 ++ m1) ++ m2 ++ l2) with (l1 ++ (m1 ++ m2) ++ l2)
        by (rewrite <- !app_assoc; reflexivity).
      apply IH; [exact Hp|].
      intros y Hy. apply Hd. apply in_app_iff in Hy. apply in_app_iff.
      destruct Hy; [now left|right; now right].
    + intro H. apply in_app_iff in H. destruct H as [H|H].
      * apply (Hd x); [|exact H]. apply in_app_iff. right. now left.
      * now apply Hn.
Qed.

Lemma popThrough_loop_found (p : Panel) (l1 l2 : list Panel)
    (q : list rawptr) :
  ~ In p l1 ->
  popThrough_loop (l1 ++ p :: l2) (Some p) q = q ++ map Some l1 ++ [Some p].
Proof.
  revert q. induction l1 as [|x l1 IH]; simpl; intros q H.
  - now rewrite Nat.eqb_refl.
  - destruct (Nat.eqb_spec x p) as [->|_].
    + elim H. now left.
    + rewrite IH by (intro; apply H; now right).
      now rewrite <- app_assoc.
Qed.

Lemma popThrough_loop_absent (panel : rawptr) (l : list Panel)
    (q : list rawptr) :
  (forall p, panel = Some p -> ~ In p l) ->
  popThrough_loop l panel q = q ++ map Some l.
Proof.
  revert q. induction l as [|x l IH]; cbn [popThrough_loop map]; intros q H.
  - now rewrite app_nil_r.
  - destruct (ptr_eqb (Some x) panel) eqn:Heq.
    + apply ptr_eqb_eq in Heq. elim (H x); [now symmetry|now left].
    + rewrite IH.
      * now rewrite <- app_assoc.
      * intros p Hp Hin. apply (H p Hp). now right.
Qed.

(** ** Reset *)

(** C1 (as amended): after [Reset] the stack and both queues are empty, so
    [IsEmpty] is true, and [IsDone] is false; the zone-owning finger, the
    drag-owning finger and the last-tap timestamp are what they were before
    the call. *)
Theorem Reset_empties_and_keeps_pointer_state (u : UI) :
  IsEmpty (Reset u) = true /\
  IsDone (Reset u) = false /\
  stack (Reset u) = [] /\ toPush (Reset u) = [] /\ toPop (Reset u) = [] /\
  zoneFingerId (Reset u) = zoneFingerId u /\
  panelFingerId (Reset u) = panelFingerId u /\
  lastTap (Reset u) = lastTap u.
Proof. repeat split. Qed.

Example after_zone_press_owner : zoneFingerId after_zone_press = 7%Z.
Proof. reflexivity. Qed.

(** C1 (as stated) fails: finger 7 owns a zone when [Reset] is called, and
    still owns it afterwards. *)
Lemma Reset_keeps_zone_owner : ~ Reset_leaves_no_owner after_zone_press.
Proof.
  unfold Reset_leaves_no_owner. intros (_ & _ & H & _).
  vm_compute in H. discriminate H.
Qed.

(** ** The apply step *)

Lemma pop_pending_length (tp : list rawptr) (st : list Panel) :
  length st <= length (pop_pending tp st) + length tp.
Proof.
  unfold pop_pending. revert st.
  induction tp as [|r tp IH]; intro st; cbn [fold_left length]; [lia|].
  pose proof (IH (erase_first r st)).
  pose proof (erase_first_length r st). lia.
Qed.

(** C2 (as amended): the apply step first puts the pushed panels on top of
    the stack and then takes the requested identities in queue order.  The
    request at the head of the queue is searched for from the bottom of that
    stack toward the top: the lowest handle that holds the panel is erased,
    and the rest of the queue is applied to the stack so left; a request for
    a panel that is not there (or for the null pointer) is passed over.  So a
    single request for a panel that occurs more than once removes the
    bottommost occurrence; at most one handle goes for each request, and the
    pop queue is empty afterwards. *)
Theorem PushOrPop_erases_lowest_match (u : UI) :
  stack (PushOrPop u)
    = pop_pending (toPop u) (push_pending (toPush u) (stack u)) /\
  toPop (PushOrPop u) = [] /\
  (forall panel st, length st <= S (length (erase_first panel st))) /\
  (forall p below above,
      ~ In p below ->
      erase_first (Some p) (below ++ p :: above) = below ++ above) /\
  (forall p st, ~ In p st -> erase_first (Some p) st = st) /\
  (forall p rest below above,
      toPop u = Some p :: rest ->
      stack u ++ pushed (toPush u) = below ++ p :: above ->
      ~ In p below ->
      stack (PushOrPop u)
      = stack (PushOrPop
                 (set_toPop rest
                    (set_toPush [] (set_stack (below ++ above) u))))) /\
  (forall panel rest,
      toPop u = panel :: rest ->
      (forall p, panel = Some p -> ~ In p (stack u ++ pushed (toPush u))) ->
      stack (PushOrPop u) = stack (PushOrPop (set_toPop rest u))) /\
  (toPop u = [] -> stack (PushOrPop u) = stack u ++ pushed (toPush u)) /\
  (forall p below above,
      toPop u = [Some p] ->
      stack u ++ pushed (toPush u) = below ++ p :: above ->
      ~ In p below ->
      stack (PushOrPop u) = below ++ above) /\
  length (stack u ++ pushed (toPush u))
    <= length (stack (PushOrPop u)) + length (toPop u).
Proof.
  assert (Hst : stack (PushOrPop u)
                = pop_pending (toPop u) (stack u ++ pushed (toPush u))).
  { cbn. now rewrite push_pending_pushed. }
  split; [reflexivity|]. split; [reflexivity|].
  split; [intros; apply erase_first_length|].
  split; [intros; now apply erase_first_lowest|].
  split; [intros; now apply erase_first_absent|].
  split; [|split; [|split; [|split]]].
  - intros p rest below above Hq Hs Hn.
    rewrite Hst, Hq, Hs. cbn.
    now rewrite erase_first_lowest.
  - intros panel rest Hq Habs. rewrite Hst, Hq. cbn.
    rewrite push_pending_pushed. f_equal.
    destruct panel as [p|]; [|apply erase_first_null].
    apply erase_first_absent. now apply Habs.
  - intro Hq. rewrite Hst, Hq. reflexivity.
  - intros p below above Hq Hs Hn. rewrite Hst, Hq, Hs. cbn.
    now apply erase_first_lowest.
  - rewrite Hst. apply pop_pending_length.
Qed.

Lemma PushOrPop_erases_lowest_match_witness :
  (erase_first (Some 1) ([] ++ 1 :: [2; 1]) = [] ++ [2; 1] /\
   erase_first (Some 3) [1; 2; 1] = [1; 2; 1]) /\
  stack (PushOrPop twice_in_stack) = [] ++ [2; 1] /\
  stack (PushOrPop (set_toPop [Some 3; Some 2] (idle [1; 2; 1])))
  = stack (PushOrPop (set_toPop [Some 2] (idle [1; 2; 1]))) /\
  stack (PushOrPop (set_toPop [Some 2; Some 1] (idle [1; 2; 1])))
  = stack (PushOrPop
             (set_toPop [Some 1]
                (set_toPush []
                   (set_stack ([1] ++ [1])
                      (set_toPop [Some 2; Some 1] (idle [1; 2; 1])))))) /\
  stack (PushOrPop (set_toPush [Some 3] (idle [1; 2])))
  = [1; 2] ++ pushed [Some 3].
Proof.
  split; [|split; [|split; [|split]]].
  - destruct (PushOrPop_erases_lowest_match twice_in_stack)
      as (_ & _ & _ & Hlow & Habs & _).
    split.
    + apply Hlow. simpl. tauto.
    + apply Habs. simpl. intros [H|[H|[H|H]]]; try discriminate H; exact H.
  - destruct (PushOrPop_erases_lowest_match twice_in_stack)
      as (_ & _ & _ & _ & _ & _ & _ & _ & Hone & _).
    apply (Hone 1 [] [2; 1]); [reflexivity|reflexivity|].
    simpl. tauto.
  - destruct (PushOrPop_erases_lowest_match
                (set_toPop [Some 3; Some 2] (idle [1; 2; 1])))
      as (_ & _ & _ & _ & _ & _ & Hskip & _).
    apply (Hskip (Some 3) [Some 2]); [reflexivity|].
    intros p [= <-]. simpl.
    intros [H|[H|[H|H]]]; try discriminate H; exact H.
  - destruct (PushOrPop_erases_lowest_match
                (set_toPop [Some 2; Some 1] (idle [1; 2; 1])))
      as (_ & _ & _ & _ & _ & Hhead & _).
    apply (Hhead 2 [Some 1] [1] [1]); [reflexivity|reflexivity|].
    simpl. intros [H|H]; [discriminate H|exact H].
  - destruct (PushOrPop_erases_lowest_match
                (set_toPush [Some 3] (idle [1; 2])))
      as (_ & _ & _ & _ & _ & _ & _ & Hnone & _).
    apply Hnone. reflexivity.
Defined.

(** C2 (as stated) fails: with panel 1 at the bottom and at the top of the
    stack, one request for it removes the bottom handle, while a search from
    the top would have removed the top one. *)
Lemma PushOrPop_not_top_down :
  stack (PushOrPop twice_in_stack) = [2; 1] /\
  pop_pending_top_down (toPop twice_in_stack)
    (push_pending (toPush twice_in_stack) (stack twice_in_stack)) = [1; 2] /\
  stack (PushOrPop twice_in_stack)
    <> pop_pending_top_down (toPop twice_in_stack)
         (push_pending (toPush twice_in_stack) (stack twice_in_stack)).
Proof.
  split; [reflexivity|]. split; [reflexivity|].
  vm_compute. discriminate.
Qed.

(** ** PopThrough *)

(** C3 (as amended): [PopThrough] leaves the stack alone and appends to the
    pop queue.  If P is in the stack, it appends the panels from the top of
    the stack down to and including the topmost P, in that order; when the
    pop queue was empty and none of these panels also sits below P, the next
    apply step leaves exactly the panels below P, followed by the pending
    pushes.  If P is not in the stack (or is null), it appends every panel of
    the stack, from the top down; when the pop queue was empty, the next
    apply step leaves only the pending pushes. *)
Theorem PopThrough_enqueues_from_top (u : UI) (panel : rawptr) :
  stack (PopThrough panel u) = stack u /\
  (forall p below above,
      panel = Some p ->
      stack u = below ++ p :: above -> ~ In p above ->
      toPop (PopThrough panel u)
        = toPop u ++ map Some (rev above) ++ [Some p] /\
      (toPop u = [] ->
       (forall x, In x (p :: above) -> ~ In x below) ->
       stack (PushOrPop (PopThrough panel u)) = below ++ pushed (toPush u))) /\
  ((forall p, panel = Some p -> ~ In p (stack u)) ->
      toPop (PopThrough panel u) = toPop u ++ map Some (rev (stack u)) /\
      (toPop u = [] ->
       stack (PushOrPop (PopThrough panel u)) = pushed (toPush u))).
Proof.
  split; [reflexivity|]. split.
  - intros p below above -> Hst Hab.
    assert (Hq : toPop (PopThrough (Some p) u)
                 = toPop u ++ map Some (rev above) ++ [Some p]).
    { unfold PopThrough. cbn [toPop set_toPop]. rewrite Hst.
      rewrite rev_app_distr. cbn [rev]. rewrite <- app_assoc. cbn [app].
      apply popThrough_loop_found. now rewrite <- in_rev. }
    split; [exact Hq|]. intros Hempty Hdis.
    unfold PushOrPop. cbn [stack set_toPop set_toPush set_stack].
    rewrite Hq, Hempty. cbn [app].
    change (stack (PopThrough (Some p) u)) with (stack u).
    change (toPush (PopThrough (Some p) u)) with (toPush u).
    rewrite push_pending_pushed, Hst.
    replace (map Some (rev above) ++ [Some p])
      with (map Some (rev above ++ [p])) by (now rewrite map_app).
    replace ((below ++ p :: above) ++ pushed (toPush u))
      with (below ++ (p :: above) ++ pushed (toPush u))
      by (now rewrite <- app_assoc).
    apply pop_pending_block; [|exact Hdis].
    change (rev above ++ [p]) with (rev (p :: above)).
    apply Permutation_sym, Permutation_rev.
  - intro Habs.
    assert (Hq : toPop (PopThrough panel u)
                 = toPop u ++ map Some (rev (stack u))).
    { unfold PopThrough. cbn [toPop set_toPop].
      apply popThrough_loop_absent.
      intros p Hp Hin. apply (Habs p Hp). now apply in_rev. }
    split; [exact Hq|]. intro Hempty.
    unfold PushOrPop. cbn [stack set_toPop set_toPush set_stack].
    rewrite Hq, Hempty. cbn [app].
    change (stack (PopThrough panel u)) with (stack u).
    change (toPush (PopThrough panel u)) with (toPush u).
    rewrite push_pending_pushed.
    change (stack u ++ pushed (toPush u))
      with ([] ++ stack u ++ pushed (toPush u)).
    apply (pop_pending_block [] (pushed (toPush u))).
    + apply Permutation_sym, Permutation_rev.
    + intros x _ [].
Qed.

Lemma PopThrough_enqueues_from_top_witness :
  (toPop (PopThrough (Some 2) (idle [1; 2; 3]))
     = [] ++ map Some (rev [3]) ++ [Some 2] /\
   stack (PushOrPop (PopThrough (Some 2) (idle [1; 2; 3]))) = [1] ++ []) /\
  (toPop (PopThrough (Some 9) (idle [1; 2; 3]))
     = [] ++ map Some (rev [1; 2; 3]) /\
   stack (PushOrPop (PopThrough (Some 9) (idle [1; 2; 3]))) = []).
Proof.
  split.
  - destruct (PopThrough_enqueues_from_top (idle [1; 2; 3]) (Some 2))
      as (_ & Hin & _).
    destruct (Hin 2 [1] [3] eq_refl eq_refl) as [Hq Hs].
    + simpl. intros [H|H]; [discriminate H|exact H].
    + split; [exact Hq|]. apply Hs; [reflexivity|].
      simpl. intros x [<-|[<-|[]]] [H|[]]; discriminate H.
  - destruct (PopThrough_enqueues_from_top (idle [1; 2; 3]) (Some 9))
      as (_ & _ & Hout).
    destruct Hout as [Hq Hs].
    + intros p [= <-]. simpl.
      intros [H|[H|[H|[]]]]; discriminate H.
    + split; [exact Hq|]. now apply Hs.
Defined.

(** C3 (as stated) fails, twice.  Asked to pop through a panel that is not
    in the stack, the controller queues every panel and the apply step empties
    the stack, where the claim leaves it untouched; and with panel 1 at the
    bottom and at the top, popping through the top one removes the bottom
    handle, so the panels below P do not stay as they were. *)
Lemma PopThrough_absent_or_repeated :
  (stack (PushOrPop (PopThrough (Some 3) (idle [1; 2]))) = [] /\
   stack_after_PopThrough_spec (Some 3) [1; 2] = [1; 2]) /\
  (stack (PushOrPop (PopThrough (Some 1) (idle [1; 2; 1]))) = [2; 1] /\
   stack_after_PopThrough_spec (Some 1) [1; 2; 1] = [1; 2]) /\
  stack (PushOrPop (PopThrough (Some 3) (idle [1; 2])))
    <> stack_after_PopThrough_spec (Some 3) [1; 2] /\
  stack (PushOrPop (PopThrough (Some 1) (idle [1; 2; 1])))
    <> stack_after_PopThrough_spec (Some 1) [1; 2; 1].
Proof.
  split; [split; reflexivity|]. split; [split; reflexivity|].
  split; vm_compute; discriminate.
Qed.

(** ** What one call of a panel method does to the controller *)

Unset Implicit Arguments.

Section Calls.

Context {E : Env}.

Lemma added_app (s s' : State) (l : list Call) :
  log s' = log s ++ l -> added s s' = l.
Proof.
  unfold added. intros ->.
  rewrite skipn_app, skipn_all, Nat.sub_diag. reflexivity.
Qed.

Lemma turn_rel_refl (p : Panel) (s : State) : turn_rel p s s.
Proof.
  split; [reflexivity|]. split; [exists []; now rewrite app_nil_r|].
  exists []. cbn. rewrite !app_nil_r. auto.
Qed.

Lemma turn_rel_trans (p : Panel) (a b c : State) :
  turn_rel p a b -> turn_rel p b c -> turn_rel p a c.
Proof.
  intros (Hs1 & [q1 Hq1] & l1 & Hl1 & Hf1 & Hp1)
         (Hs2 & [q2 Hq2] & l2 & Hl2 & Hf2 & Hp2).
  split; [congruence|]. split.
  - exists (q1 ++ q2). rewrite Hq2, Hq1. now rewrite app_assoc.
  - exists (l1 ++ l2). split; [rewrite Hl2, Hl1; now rewrite app_assoc|].
    split.
    + apply Forall_app. split; [exact Hf1|].
      rewrite Hs1 in Hf2. exact Hf2.
    + rewrite Hp2, Hp1, filter_app, map_app. now rewrite app_assoc.
Qed.

Lemma same_fingers_refl (s : State) : same_fingers s s.
Proof. repeat split. Qed.

Lemma same_fingers_trans (a b c : State) :
  same_fingers a b -> same_fingers b c -> same_fingers a c.
Proof. unfold same_fingers. intuition congruence. Qed.

Lemma apply_request_wiring (s : State) (r : Request) :
  wiring_only s (apply_request s r) /\ same_fingers s (apply_request s r).
Proof.
  destruct r as [p|panel|panel| |b]; cbn [apply_request].
  - split; [|repeat split]. split; [reflexivity|]. split.
    { rewrite (added_app s (push_panel p s) [mkCall p SetUI (stack (ui s))]);
        reflexivity. }
    split; [exists []; cbn; now rewrite app_nil_r|].
    exists [mkCall p SetUI (stack (ui s))]. split; [reflexivity|].
    split; [|reflexivity]. constructor; [split; reflexivity|constructor].
  - split; [|repeat split]. split; [reflexivity|]. split.
    { rewrite (added_app s (on_ui (Pop panel) s) []);
        [reflexivity|cbn; now rewrite app_nil_r]. }
    split; [exists [panel]; reflexivity|].
    exists []. cbn. rewrite !app_nil_r. auto.
  - split; [|repeat split]. split; [reflexivity|]. split.
    { rewrite (added_app s (on_ui (PopThrough panel) s) []);
        [reflexivity|cbn; now rewrite app_nil_r]. }
    split.
    + cbn. generalize (toPop (ui s)) as q.
      induction (rev (stack (ui s))) as [|x l IH]; intro q;
        cbn [popThrough_loop].
      * exists []. now rewrite app_nil_r.
      * destruct (ptr_eqb (Some x) panel).
        -- now exists [Some x].
        -- destruct (IH (q ++ [Some x])) as [q' Hq']. rewrite Hq'.
           exists (Some x :: q'). now rewrite <- app_assoc.
    + exists []. cbn. rewrite !app_nil_r. auto.
  - split; [|repeat split]. split; [reflexivity|]. split.
    { rewrite (added_app s (on_ui Quit s) []);
        [reflexivity|cbn; now rewrite app_nil_r]. }
    split; [exists []; cbn; now rewrite app_nil_r|].
    exists []. cbn. rewrite !app_nil_r. auto.
  - split; [|repeat split]. split; [reflexivity|]. split.
    { rewrite (added_app s (on_ui (CanSave b) s) []);
        [reflexivity|cbn; now rewrite app_nil_r]. }
    split; [exists []; cbn; now rewrite app_nil_r|].
    exists []. cbn. rewrite !app_nil_r. auto.
Qed.

Lemma wiring_only_refl (s : State) : wiring_only s s.
Proof.
  split; [reflexivity|]. split.
  { rewrite (added_app s s []); [reflexivity|now rewrite app_nil_r]. }
  split; [exists []; now rewrite app_nil_r|].
  exists []. cbn. rewrite !app_nil_r. auto.
Qed.

Lemma wiring_only_trans (a b c : State) :
  wiring_only a b -> wiring_only b c -> wiring_only a c.
Proof.
  intros (Hs1 & Hw1 & [q1 Hq1] & l1 & Hl1 & Hf1 & Hp1)
         (Hs2 & Hw2 & [q2 Hq2] & l2 & Hl2 & Hf2 & Hp2).
  assert (Hl : log c = log a ++ (l1 ++ l2))
    by (rewrite Hl2, Hl1; now rewrite app_assoc).
  split; [congruence|]. split.
  { rewrite (added_app a c _ Hl), fold_left_app.
    rewrite (added_app a b _ Hl1) in Hw1. rewrite (added_app b c _ Hl2) in Hw2.
    now rewrite <- Hw1. }
  split.
  - exists (q1 ++ q2). rewrite Hq2, Hq1. now rewrite app_assoc.
  - exists (l1 ++ l2). split; [exact Hl|]. split.
    + apply Forall_app. split; [exact Hf1|]. rewrite Hs1 in Hf2. exact Hf2.
    + rewrite Hp2, Hp1, map_app. now rewrite app_assoc.
Qed.

Lemma apply_requests_wiring (reqs : list Request) (s : State) :
  wiring_only s (fold_left apply_request reqs s) /\
  same_fingers s (fold_left apply_request reqs s).
Proof.
  revert s. induction reqs as [|r reqs IH]; intro s; cbn [fold_left].
  - split; [apply wiring_only_refl|apply same_fingers_refl].
  - destruct (apply_request_wiring s r) as [H1 H2].
    destruct (IH (apply_request s r)) as [H3 H4]. split.
    + eapply wiring_only_trans; eassumption.
    + eapply same_fingers_trans; eassumption.
Qed.

(** One call: the entry of the call itself, then the wiring of whatever the
    panel pushed from inside it. *)
Lemma call_log (p : Panel) (m : Method) (s : State) :
  stack (ui (snd (call p m s))) = stack (ui s) /\
  same_fingers s (snd (call p m s)) /\
  (exists q, toPop (ui (snd (call p m s))) = toPop (ui s) ++ q) /\
  (exists l,
      log (snd (call p m s)) = log s ++ mkCall p m (stack (ui s)) :: l /\
      Forall (fun c => method c = SetUI /\ seen c = stack (ui s)) l /\
      toPush (ui (snd (call p m s)))
        = toPush (ui s) ++ map (fun c => Some (callee c)) l).
Proof.
  unfold call. destruct (invoke p m (ui s) (world s)) as [[r w] reqs].
  cbn [snd].
  set (s0 := mkState (ui s) w (log s ++ [mkCall p m (stack (ui s))])).
  destruct (apply_requests_wiring reqs s0)
    as [(Hs & _ & Hq & l & Hl & Hf & Hp) Hk].
  split; [exact Hs|]. split; [exact Hk|]. split; [exact Hq|].
  exists l. split; [|split; [exact Hf|exact Hp]].
  rewrite Hl. unfold s0. cbn [log]. now rewrite <- app_assoc.
Qed.

Lemma call_turn_rel (p : Panel) (m : Method) (s : State) :
  is_SetUI m = false -> turn_rel p s (snd (call p m s)).
Proof.
  intro Hm. destruct (call_log p m s) as (Hs & _ & Hq & l & Hl & Hf & Hp).
  split; [exact Hs|]. split; [exact Hq|].
  exists (mkCall p m (stack (ui s)) :: l). split; [exact Hl|]. split.
  - constructor; [cbn; auto|].
    eapply Forall_impl; [|exact Hf]. cbn. intros c [Hc1 Hc2].
    split; [exact Hc2|]. rewrite Hc1. discriminate.
  - rewrite Hp. cbn [filter method]. rewrite Hm. f_equal. f_equal.
    clear -Hf. induction Hf as [|c l [Hc _] _ IH]; [reflexivity|].
    cbn [filter]. rewrite Hc. cbn. now rewrite <- IH.
Qed.

End Calls.

(** ** Turns, walks and loops *)

Section Loops.

Context {E : Env}.

(** A relation that holds across every step a turn is made of holds across
    the turn. *)
Lemma turn_stable (R : State -> State -> Prop) (p : Panel) :
  (forall s, R s s) ->
  (forall a b c, R a b -> R b c -> R a c) ->
  (forall m s, is_delivery m = true -> R s (snd (call p m s))) ->
  (forall f s, R s (on_ui (set_zoneFingerId f) s)) ->
  (forall f s, R s (on_ui (set_panelFingerId f) s)) ->
  (forall t s, R s (on_ui (set_lastTap t) s)) ->
  (forall c s, R s (mkState (ui s) (InjectOnce c (world s)) (log s))) ->
  forall ev h s, R s (snd (turn ev p h s)).
Proof.
  intros Hrefl Htrans Hcall Hzone Hpanel Htap Hinj ev h s.
  assert (Hcall' : forall m s, is_delivery m = true ->
                    forall s0, R s0 s -> R s0 (snd (call p m s))).
  { intros m s1 Hm s0 H0. eapply Htrans; [exact H0|now apply Hcall]. }
  assert (Hz : forall f s1 s0, R s0 s1 -> R s0 (on_ui (set_zoneFingerId f) s1))
    by (intros; eapply Htrans; [eassumption|apply Hzone]).
  assert (Hp : forall f s1 s0, R s0 s1 -> R s0 (on_ui (set_panelFingerId f) s1))
    by (intros; eapply Htrans; [eassumption|apply Hpanel]).
  assert (Ht : forall f s1 s0, R s0 s1 -> R s0 (on_ui (set_lastTap f) s1))
    by (intros; eapply Htrans; [eassumption|apply Htap]).
  assert (Hi : forall c s1 s0, R s0 s1 ->
                 R s0 (mkState (ui s1) (InjectOnce c (world s1)) (log s1)))
    by (intros; eapply Htrans; [eassumption|apply Hinj]).
  pose proof (Hrefl s) as H0.
  destruct ev; unfold turn, click_fallback;
    repeat first
      [ progress cbn [fst snd negb andb]
      | solve [auto 6]
      | match goal with
        | |- context [if ?b then _ else _] => destruct b
        | |- context [call ?q ?m ?s1] =>
            let Hc := fresh "Hc" in
            assert (Hc : R s (snd (call q m s1)))
              by (apply Hcall'; [reflexivity|auto 6]);
            destruct (call q m s1); cbn [fst snd] in Hc
        end ].
Qed.

Lemma turn_rel_same (p : Panel) (s s' : State) :
  stack (ui s') = stack (ui s) -> toPush (ui s') = toPush (ui s) ->
  toPop (ui s') = toPop (ui s) -> log s' = log s ->
  turn_rel p s s'.
Proof.
  intros Hs Hp Hq Hl.
  split; [exact Hs|]. split; [exists []; now rewrite app_nil_r|].
  exists []. cbn. rewrite !app_nil_r. auto.
Qed.

Lemma turn_turn_rel (ev : SDL_Event) (p : Panel) (h : bool) (s : State) :
  turn_rel p s (snd (turn ev p h s)).
Proof.
  apply turn_stable.
  - apply turn_rel_refl.
  - apply turn_rel_trans.
  - intros m s0 Hm. apply call_turn_rel. now destruct m.
  - intros; now apply turn_rel_same.
  - intros; now apply turn_rel_same.
  - intros; now apply turn_rel_same.
  - intros; now apply turn_rel_same.
Qed.

Lemma run_rel_refl (s : State) : run_rel s s.
Proof.
  split; [reflexivity|]. split; [exists []; now rewrite app_nil_r|].
  exists []. cbn. rewrite !app_nil_r. auto.
Qed.

Lemma run_rel_trans (a b c : State) :
  run_rel a b -> run_rel b c -> run_rel a c.
Proof.
  intros (Hs1 & [q1 Hq1] & l1 & Hl1 & Hf1 & Hp1)
         (Hs2 & [q2 Hq2] & l2 & Hl2 & Hf2 & Hp2).
  split; [congruence|]. split.
  - exists (q1 ++ q2). rewrite Hq2, Hq1. now rewrite app_assoc.
  - exists (l1 ++ l2). split; [rewrite Hl2, Hl1; now rewrite app_assoc|].
    split.
    + apply Forall_app. split; [exact Hf1|].
      rewrite Hs1 in Hf2. exact Hf2.
    + rewrite Hp2, Hp1, filter_app, map_app. now rewrite app_assoc.
Qed.

Lemma turn_rel_run_rel (p : Panel) (s s' : State) :
  In p (stack (ui s)) -> turn_rel p s s' -> run_rel s s'.
Proof.
  intros Hin (Hs & Hq & l & Hl & Hf & Hp).
  split; [exact Hs|]. split; [exact Hq|].
  exists l. split; [exact Hl|]. split; [|exact Hp].
  eapply Forall_impl; [|exact Hf]. cbn. intros c [H1 H2].
  split; [exact H1|]. intro H. now rewrite (H2 H).
Qed.

(** A relation that holds across every turn holds across the walk of
    [Handle]. *)
Lemma walk_stable (R : State -> State -> Prop) (ev : SDL_Event) :
  (forall s, R s s) ->
  (forall a b c, R a b -> R b c -> R a c) ->
  (forall p h s, In p (stack (ui s)) -> queued p (ui s) = false ->
                 R s (snd (turn ev p h s))) ->
  forall i h s, R s (snd (walk ev i h s)).
Proof.
  intros Hrefl Htrans Hturn. induction i as [|j IH]; intros h s.
  - apply Hrefl.
  - cbn [walk]. destruct h; [apply Hrefl|].
    destruct (nth_error (stack (ui s)) j) as [p|] eqn:Hn; [|apply Hrefl].
    destruct (queued p (ui s)) eqn:Hq; [apply IH|].
    pose proof (Hturn p false s (nth_error_In _ _ Hn) Hq) as Ht.
    destruct (turn ev p false s) as [h' s']. cbn [snd] in Ht.
    destruct (TrapAllEvents p (world s')); [exact Ht|].
    eapply Htrans; [exact Ht|apply IH].
Qed.

Lemma walk_run_rel (ev : SDL_Event) (i : nat) (h : bool) (s : State) :
  run_rel s (snd (walk ev i h s)).
Proof.
  apply walk_stable.
  - apply run_rel_refl.
  - apply run_rel_trans.
  - intros p h0 s0 Hin _. eapply turn_rel_run_rel; [exact Hin|].
    apply turn_turn_rel.
Qed.

(** The same for a loop that calls one method on every panel. *)
Lemma for_stack_stable (R : State -> State -> Prop) (m : Method) :
  (forall s, R s s) ->
  (forall a b c, R a b -> R b c -> R a c) ->
  (forall p s, In p (stack (ui s)) -> R s (snd (call p m s))) ->
  forall n i s, R s (for_stack m n i s).
Proof.
  intros Hrefl Htrans Hcall. induction n as [|k IH]; intros i s.
  - apply Hrefl.
  - cbn [for_stack].
    destruct (nth_error (stack (ui s)) i) as [p|] eqn:Hn; [|apply Hrefl].
    eapply Htrans; [apply (Hcall p s (nth_error_In _ _ Hn))|apply IH].
Qed.

Lemma for_stack_run_rel (m : Method) (n i : nat) (s : State) :
  is_SetUI m = false -> run_rel s (for_stack m n i s).
Proof.
  intro Hm. apply for_stack_stable.
  - apply run_rel_refl.
  - apply run_rel_trans.
  - intros p s0 Hin. eapply turn_rel_run_rel; [exact Hin|].
    now apply call_turn_rel.
Qed.

Lemma on_ui_PushOrPop_log (s : State) :
  log (on_ui PushOrPop s) = log s.
Proof. reflexivity. Qed.

Lemma run_rel_added (s s' : State) :
  run_rel s s' -> log s' = log s ++ added s s'.
Proof.
  intros (_ & _ & l & Hl & _). now rewrite (added_app s s' l Hl).
Qed.

Lemma Handle_unfold (ev : SDL_Event) (s : State) :
  Handle ev s
  = (fst (walk ev (length (stack (ui s))) false s),
     on_ui PushOrPop (snd (walk ev (length (stack (ui s))) false s))).
Proof.
  unfold Handle. now destruct (walk ev (length (stack (ui s))) false s).
Qed.

Lemma panel_calls_app (l1 l2 : list Call) :
  panel_calls (l1 ++ l2) = panel_calls l1 ++ panel_calls l2.
Proof. unfold panel_calls. now rewrite filter_app, map_app. Qed.

Lemma panel_calls_wiring (l : list Call) :
  Forall (fun c => method c = SetUI) l -> panel_calls l = [].
Proof.
  induction 1 as [|c l Hc _ IH]; [reflexivity|].
  unfold panel_calls in *. cbn [filter]. now rewrite Hc.
Qed.

Lemma skipn_nth_error (A : Type) (l : list A) (i : nat) (x : A) :
  nth_error l i = Some x -> skipn i l = x :: skipn (S i) l.
Proof.
  revert i. induction l as [|a l IH]; intros [|i] H; try discriminate H.
  - injection H as ->. reflexivity.
  - cbn [nth_error] in H. apply IH in H. exact H.
Qed.

(** A loop over the stack calls its method on the panels it ranges over, in
    order, and on nothing else. *)
Lemma for_stack_calls (m : Method) :
  is_SetUI m = false ->
  forall n i s,
    panel_calls (added s (for_stack m n i s))
    = map (fun p => (p, m)) (firstn n (skipn i (stack (ui s)))).
Proof.
  intro Hm. induction n as [|k IH]; intros i s.
  - cbn [for_stack firstn map].
    rewrite (added_app s s []) by (now rewrite app_nil_r). reflexivity.
  - cbn [for_stack].
    destruct (nth_error (stack (ui s)) i) as [p|] eqn:Hn.
    + destruct (call_log p m s) as (Hs & _ & _ & l & Hl & Hf & _).
      set (s1 := snd (call p m s)) in *.
      pose proof (run_rel_added _ _ (for_stack_run_rel m k (S i) s1 Hm)) as Hl2.
      rewrite Hl, <- app_assoc in Hl2.
      rewrite (added_app _ _ _ Hl2).
      change ([mkCall p m (stack (ui s))] ++ l ++ added s1 (for_stack m k (S i) s1))
        with (mkCall p m (stack (ui s)) :: l ++ added s1 (for_stack m k (S i) s1)).
      change ((mkCall p m (stack (ui s)) :: l) ++ added s1 (for_stack m k (S i) s1))
        with (mkCall p m (stack (ui s)) :: l ++ added s1 (for_stack m k (S i) s1)).
      rewrite (skipn_nth_error _ _ _ _ Hn). cbn [firstn map].
      unfold panel_calls at 1. cbn [filter method]. rewrite Hm. cbn [negb map].
      f_equal. fold (panel_calls (l ++ added s1 (for_stack m k (S i) s1))).
      rewrite panel_calls_app, panel_calls_wiring, IH, Hs; [reflexivity|].
      eapply Forall_impl; [|exact Hf]. now intros c [Hc _].
    + rewrite (added_app s s []) by (now rewrite app_nil_r).
      apply nth_error_None in Hn. rewrite skipn_all2 by exact Hn.
      now rewrite firstn_nil.
Qed.

Lemma find_fullscreen_none (st : list Panel) (w : W) :
  (forall x, In x st -> IsFullScreen x w = false) ->
  forall i, i <= length st -> find_fullscreen st w i = 0.
Proof.
  intros Hno. induction i as [|j IH]; intro Hi; [reflexivity|].
  cbn [find_fullscreen].
  destruct (nth_error st j) as [p|] eqn:Hn.
  - rewrite (Hno p (nth_error_In _ _ Hn)). apply IH. lia.
  - apply nth_error_None in Hn. lia.
Qed.

Lemma find_fullscreen_topmost (below above : list Panel) (f : Panel) (w : W) :
  IsFullScreen f w = true ->
  (forall x, In x above -> IsFullScreen x w = false) ->
  forall n, n <= length above ->
    find_fullscreen (below ++ f :: above) w (S (length below + n))
    = length below.
Proof.
  intros Hf Hno. induction n as [|k IH]; intro Hn.
  - rewrite Nat.add_0_r. cbn [find_fullscreen].
    rewrite nth_error_app2, Nat.sub_diag by lia. cbn [nth_error].
    now rewrite Hf.
  - cbn [find_fullscreen].
    replace (length below + S k) with (S (length below + k)) by lia.
    rewrite nth_error_app2 by lia.
    replace (S (length below + k) - length below) with (S k) by lia.
    cbn [nth_error].
    destruct (nth_error above k) as [x|] eqn:Hx.
    + rewrite (Hno x (nth_error_In _ _ Hx)). apply IH. lia.
    + apply nth_error_None in Hx. lia.
Qed.

(** ** Drawing *)

(** C9: [DrawAll] calls [ClearZones] on every panel of the stack, from the
    bottom up, and only then draws: with [it] the place of the highest panel
    that says it is full-screen (the bottom of the stack if none does), it
    calls [Draw] on the panels from [it] to the top, from the bottom up, and
    on no panel below [it]. *)
Theorem DrawAll_starts_at_topmost_fullscreen (s : State) :
  let cleared := for_stack ClearZones (length (stack (ui s))) 0 s in
  let it := find_fullscreen (stack (ui s)) (world cleared)
                            (length (stack (ui s))) in
  panel_calls (added s (DrawAll s))
    = map (fun p => (p, ClearZones)) (stack (ui s))
      ++ map (fun p => (p, Draw)) (skipn it (stack (ui s))) /\
  (forall below f above,
      stack (ui s) = below ++ f :: above ->
      IsFullScreen f (world cleared) = true ->
      (forall x, In x above -> IsFullScreen x (world cleared) = false) ->
      skipn it (stack (ui s)) = f :: above) /\
  ((forall x, In x (stack (ui s)) -> IsFullScreen x (world cleared) = false) ->
   skipn it (stack (ui s)) = stack (ui s)).
Proof.
  intros cleared it.
  pose proof (for_stack_run_rel ClearZones (length (stack (ui s))) 0 s eq_refl)
    as Hr1.
  fold cleared in Hr1.
  assert (Hs1 : stack (ui cleared) = stack (ui s)) by apply Hr1.
  split.
  - unfold DrawAll. fold cleared. rewrite Hs1. fold it.
    set (drawn := for_stack Draw (length (stack (ui s)) - it) it cleared).
    pose proof (for_stack_run_rel Draw (length (stack (ui s)) - it) it cleared
                  eq_refl) as Hr2.
    fold drawn in Hr2.
    pose proof (run_rel_added _ _ Hr1) as Hl1.
    pose proof (run_rel_added _ _ Hr2) as Hl2.
    rewrite Hl1, <- app_assoc in Hl2.
    rewrite (added_app _ _ _ Hl2), panel_calls_app.
    unfold cleared at 1. rewrite for_stack_calls by reflexivity.
    unfold drawn. rewrite for_stack_calls by reflexivity.
    cbn [skipn]. rewrite firstn_all, Hs1.
    f_equal. f_equal. apply firstn_all2. rewrite length_skipn. lia.
  - split.
    + intros below f above Hst Hf Hno. unfold it. rewrite Hst.
      replace (length (below ++ f :: above))
        with (S (length below + length above))
        by (rewrite length_app; cbn [length]; lia).
      rewrite (find_fullscreen_topmost below above f _ Hf Hno) by lia.
      rewrite skipn_app, skipn_all, Nat.sub_diag. reflexivity.
    + intro Hno. unfold it.
      now rewrite (find_fullscreen_none _ _ Hno) by lia.
Qed.

End Loops.

(** ** Who receives an event *)

Section Dispatch.

Context {E : Env}.

Lemma walk_at_walk {ev : SDL_Event} {i h s i' h' s'} :
  walk_at ev i h s i' h' s' -> walk ev i h s = walk ev i' h' s'.
Proof.
  induction 1 as [i h s|j s p i' h' s' Hn Hq _ IH
                 |j s p h1 s1 i' h' s' Hn Hq Ht Htrap _ IH].
  - reflexivity.
  - rewrite <- IH. cbn [walk]. now rewrite Hn, Hq.
  - rewrite <- IH. cbn [walk]. now rewrite Hn, Hq, Ht, Htrap.
Qed.

Lemma queued_grows (p : Panel) (u u' : UI) :
  (exists q, toPop u' = toPop u ++ q) ->
  queued p u = true -> queued p u' = true.
Proof.
  intros [q Hq] H. unfold queued in *. rewrite Hq, existsb_app, H.
  reflexivity.
Qed.

Lemma queued_differs (p q : Panel) (u : UI) :
  queued p u = true -> queued q u = false -> q <> p.
Proof. intros Hp Hq ->. congruence. Qed.

Lemma deliveries_to_app (p : Panel) (l1 l2 : list Call) :
  deliveries_to p (l1 ++ l2) = deliveries_to p l1 ++ deliveries_to p l2.
Proof. apply filter_app. Qed.

Lemma deliveries_to_others (p : Panel) (l : list Call) :
  Forall (fun c => is_SetUI (method c) = false -> callee c <> p) l ->
  deliveries_to p l = [].
Proof.
  induction 1 as [|c l Hc _ IH]; [reflexivity|].
  unfold deliveries_to in *. cbn [filter]. rewrite IH.
  destruct (is_delivery (method c)) eqn:Hd; [|reflexivity].
  destruct (Nat.eqb_spec (callee c) p) as [Heq|_]; [|reflexivity].
  elim (Hc ltac:(now destruct (method c))). exact Heq.
Qed.

(** Between two stands of the loop the calls other than [SetUI] go to the
    panels the iterator has passed. *)
Lemma walk_at_passed {ev : SDL_Event} {i h s i' h' s'} :
  walk_at ev i h s i' h' s' ->
  stack (ui s') = stack (ui s) /\
  exists l,
    log s' = log s ++ l /\
    Forall (fun c => is_SetUI (method c) = false ->
                     exists k, i' <= k < i /\
                               nth_error (stack (ui s)) k = Some (callee c)) l.
Proof.
  induction 1 as [i h s|j s p i' h' s' Hn Hq _ IH
                 |j s p h1 s1 i' h' s' Hn Hq Ht Htrap Hw IH].
  - split; [reflexivity|]. exists []. now rewrite app_nil_r.
  - destruct IH as (Hs & l & Hl & Hf). split; [exact Hs|].
    exists l. split; [exact Hl|].
    eapply Forall_impl; [|exact Hf]. cbn.
    intros c Hc Hm. destruct (Hc Hm) as (k & Hk & Hnk).
    exists k. split; [lia|exact Hnk].
  - destruct IH as (Hs & l & Hl & Hf).
    pose proof (turn_turn_rel ev p false s) as Hr. rewrite Ht in Hr.
    cbn [snd] in Hr. destruct Hr as (Hs1 & _ & l1 & Hl1 & Hf1 & _).
    split; [congruence|].
    exists (l1 ++ l). split; [rewrite Hl, Hl1; now rewrite app_assoc|].
    apply Forall_app. split.
    + eapply Forall_impl; [|exact Hf1]. cbn.
      intros c [_ Hc] Hm. exists j. split; [|now rewrite (Hc Hm)].
      assert (i' <= j); [|lia].
      clear -Hw. remember j as a. clear Heqa.
      induction Hw; lia.
    + eapply Forall_impl; [|exact Hf]. cbn.
      intros c Hc Hm. destruct (Hc Hm) as (k & Hk & Hnk).
      exists k. split; [lia|]. now rewrite <- Hs1.
Qed.

(** A panel that waits to be popped is passed over for the rest of a walk. *)
Lemma walk_passes_queued (ev : SDL_Event) (p : Panel) i h s :
  queued p (ui s) = true ->
  deliveries_to p (added s (snd (walk ev i h s))) = [].
Proof.
  intro Hq.
  enough (H : queued p (ui s) = true ->
              queued p (ui (snd (walk ev i h s))) = true /\
              exists l, log (snd (walk ev i h s)) = log s ++ l /\
                        deliveries_to p l = []).
  { destruct (H Hq) as (_ & l & Hl & Hd). now rewrite (added_app _ _ _ Hl). }
  apply (walk_stable
           (fun a b => queued p (ui a) = true ->
                       queued p (ui b) = true /\
                       exists l, log b = log a ++ l /\ deliveries_to p l = [])).
  - intros a Ha. split; [exact Ha|]. exists []. now rewrite app_nil_r.
  - intros a b c Hab Hbc Ha.
    destruct (Hab Ha) as (Hb & l1 & Hl1 & Hd1).
    destruct (Hbc Hb) as (Hc & l2 & Hl2 & Hd2).
    split; [exact Hc|]. exists (l1 ++ l2).
    split; [rewrite Hl2, Hl1; now rewrite app_assoc|].
    now rewrite deliveries_to_app, Hd1, Hd2.
  - intros q h0 a _ Hqa Ha.
    destruct (turn_turn_rel ev q h0 a) as (_ & Hgrow & l & Hl & Hf & _).
    split; [now apply (queued_grows p (ui a))|].
    exists l. split; [exact Hl|]. apply deliveries_to_others.
    eapply Forall_impl; [|exact Hf]. cbn. intros c [_ Hc] Hm.
    rewrite (Hc Hm). now apply (queued_differs p q (ui a)).
Qed.

(** C7 (as amended): when the walk of [Handle] comes to a handle whose
    panel is in the pop queue, it passes on without calling any method, and
    no event is delivered to that panel from then on in the call, although
    the handle is still in the stack.  No event is delivered to the panel
    during the whole call when the panel is in the queue as [Handle] is
    entered, or when no handle higher in the stack holds the same panel. *)
Theorem Handle_skips_queued_panel (ev : SDL_Event) (p : Panel) :
  (forall j s,
      nth_error (stack (ui s)) j = Some p -> queued p (ui s) = true ->
      walk ev (S j) false s = walk ev j false s /\
      deliveries_to p (added s (snd (walk ev (S j) false s))) = []) /\
  (forall s,
      queued p (ui s) = true ->
      deliveries_to p (added s (snd (Handle ev s))) = []) /\
  (forall s0 j s,
      walk_at ev (length (stack (ui s0))) false s0 (S j) false s ->
      nth_error (stack (ui s)) j = Some p -> queued p (ui s) = true ->
      (forall k, j < k -> nth_error (stack (ui s0)) k <> Some p) ->
      deliveries_to p (added s0 (snd (Handle ev s0))) = []).
Proof.
  split; [|split].
  - intros j s Hn Hq. split.
    + cbn [walk]. now rewrite Hn, Hq.
    + now apply walk_passes_queued.
  - intros s Hq. rewrite Handle_unfold. cbn [snd].
    change (added s (on_ui PushOrPop (snd (walk ev (length (stack (ui s))) false s))))
      with (added s (snd (walk ev (length (stack (ui s))) false s))).
    now apply walk_passes_queued.
  - intros s0 j s Hat Hn Hq Honce. rewrite Handle_unfold. cbn [snd].
    change (added s0 (on_ui PushOrPop (snd (walk ev (length (stack (ui s0))) false s0))))
      with (added s0 (snd (walk ev (length (stack (ui s0))) false s0))).
    rewrite (walk_at_walk Hat).
    destruct (walk_at_passed Hat) as (_ & l1 & Hl1 & Hf1).
    pose proof (walk_passes_queued ev p (S j) false s Hq) as Hrest.
    pose proof (run_rel_added _ _ (walk_run_rel ev (S j) false s)) as Hl2.
    rewrite Hl1, <- app_assoc in Hl2.
    rewrite (added_app _ _ _ Hl2), deliveries_to_app, Hrest, app_nil_r.
    apply deliveries_to_others.
    eapply Forall_impl; [|exact Hf1]. cbn.
    intros c Hc Hm Heq. destruct (Hc Hm) as (k & Hk & Hnk).
    apply (Honce k); [lia|]. now rewrite Hnk, Heq.
Qed.

(** C8: when a panel has had its turn and says it traps all events, the walk
    ends there: the turn of that panel is all that happens from the moment
    the walk came to it, so every event delivered from then on went to that
    panel, and what [Handle] returns is the result of that turn followed by
    the apply step. *)
Theorem Handle_stops_at_trap (ev : SDL_Event) (j : nat) (p : Panel)
    (s : State) (h : bool) (s' : State) :
  nth_error (stack (ui s)) j = Some p ->
  queued p (ui s) = false ->
  turn ev p false s = (h, s') ->
  TrapAllEvents p (world s') = true ->
  walk ev (S j) false s = (h, s') /\
  Forall (fun c => is_delivery (method c) = true -> callee c = p)
         (added s (snd (walk ev (S j) false s))) /\
  (forall s0,
      walk_at ev (length (stack (ui s0))) false s0 (S j) false s ->
      Handle ev s0 = (h, on_ui PushOrPop s')).
Proof.
  intros Hn Hq Ht Htrap.
  assert (Hw : walk ev (S j) false s = (h, s'))
    by (cbn [walk]; now rewrite Hn, Hq, Ht, Htrap).
  split; [exact Hw|]. split.
  - rewrite Hw. cbn [snd].
    pose proof (turn_turn_rel ev p false s) as Hr. rewrite Ht in Hr.
    cbn [snd] in Hr. destruct Hr as (_ & _ & l & Hl & Hf & _).
    rewrite (added_app _ _ _ Hl).
    eapply Forall_impl; [|exact Hf]. cbn. intros c [_ Hc] Hd.
    apply Hc. now destruct (method c).
  - intros s0 Hat. rewrite Handle_unfold, (walk_at_walk Hat), Hw.
    reflexivity.
Qed.

End Dispatch.

(** ** Wiring *)

Section Wiring.

Context {E : Env}.

Lemma wired_panels_app (l1 l2 : list Call) :
  wired_panels (l1 ++ l2) = wired_panels l1 ++ wired_panels l2.
Proof. unfold wired_panels. now rewrite filter_app, map_app. Qed.

Lemma pushed_In (p : Panel) (tp : list handle) :
  In p (pushed tp) <-> In (Some p) tp.
Proof.
  unfold pushed. rewrite in_flat_map. split.
  - intros ([q|] & Hin & Hp); [|destruct Hp].
    destruct Hp as [->|[]]. exact Hin.
  - intro Hin. exists (Some p). split; [exact Hin|now left].
Qed.

(** A step that makes no call and holds no panel it did not hold before. *)
Lemma wired_same (s s' : State) :
  log s' = log s ->
  (forall p, In p (stack (ui s')) \/ In (Some p) (toPush (ui s')) ->
             In p (stack (ui s)) \/ In (Some p) (toPush (ui s))) ->
  wired s -> wired s'.
Proof.
  intros Hl Hsub [H1 H2]. split.
  - intros p Hp. rewrite Hl. apply H1, Hsub, Hp.
  - rewrite Hl. exact H2.
Qed.

Lemma PushOrPop_wired (s : State) : wired s -> wired (on_ui PushOrPop s).
Proof.
  apply wired_same; [reflexivity|].
  intros p [Hp|Hp]; [|destruct Hp].
  cbn in Hp. apply pop_pending_incl in Hp.
  rewrite push_pending_pushed in Hp. apply in_app_iff in Hp.
  destruct Hp as [Hp|Hp]; [now left|right; now apply pushed_In].
Qed.

Lemma push_panel_wired (p : Panel) (s : State) :
  wired s -> wired (push_panel p s).
Proof.
  intros [H1 H2]. split.
  - intros x Hx. cbn [push_panel log]. rewrite wired_panels_app.
    apply in_app_iff. cbn [push_panel ui stack toPush set_toPush] in Hx.
    destruct Hx as [Hx|Hx].
    + left. apply H1. now left.
    + apply in_app_iff in Hx. destruct Hx as [Hx|[Hx|[]]].
      * left. apply H1. now right.
      * right. injection Hx as ->. now left.
  - intros before c after Hl Hm. cbn [push_panel log] in Hl.
    destruct (app_eq_app _ _ _ _ Hl) as [l' [[Ha Hb]|[Ha Hb]]].
    + destruct l' as [|c' l'].
      * cbn in Hb. injection Hb as -> _. discriminate Hm.
      * cbn in Hb. injection Hb as <- Hb.
        apply (H2 before c l'); [exact Ha|exact Hm].
    + destruct l' as [|c' l'].
      * cbn in Hb. injection Hb as <- _. discriminate Hm.
      * cbn in Hb. injection Hb as _ Hb. now destruct l'.
Qed.

Lemma run_rel_wired (s s' : State) : run_rel s s' -> wired s -> wired s'.
Proof.
  intros (Hs & _ & l & Hl & Hf & Hp) [H1 H2]. split.
  - intros x Hx. rewrite Hl, wired_panels_app. apply in_app_iff.
    rewrite Hs, Hp in Hx. destruct Hx as [Hx|Hx].
    + left. apply H1. now left.
    + apply in_app_iff in Hx. destruct Hx as [Hx|Hx].
      * left. apply H1. now right.
      * right. apply in_map_iff in Hx. destruct Hx as (c & Hc & Hin).
        injection Hc as <-. unfold wired_panels. now apply in_map.
  - intros before c after Hlog Hm. rewrite Hl in Hlog.
    destruct (app_eq_app _ _ _ _ Hlog) as [l' [[Ha Hb]|[Ha Hb]]].
    + destruct l' as [|c' l'].
      * cbn in Hb. rewrite app_nil_r in Ha. subst before.
        apply H1. left. rewrite Forall_forall in Hf.
        apply (Hf c); [rewrite <- Hb; now left|exact Hm].
      * cbn in Hb. injection Hb as <- Hb.
        apply (H2 before c l'); [exact Ha|exact Hm].
    + subst before. rewrite wired_panels_app. apply in_app_iff. left.
      apply H1. left. rewrite Forall_forall in Hf.
      apply (Hf c); [rewrite Hb; apply in_app_iff; right; now left|exact Hm].
Qed.

Lemma host_step_wired (s : State) (c : HostCall) :
  wired s -> wired (host_step s c).
Proof.
  intro Hw. destruct c as [p|panel|panel|ev| | | | |b]; cbn [host_step].
  - now apply push_panel_wired.
  - revert Hw. apply wired_same; [reflexivity|auto].
  - revert Hw. apply wired_same; [reflexivity|auto].
  - rewrite Handle_unfold. cbn [snd]. apply PushOrPop_wired.
    eapply run_rel_wired; [apply walk_run_rel|exact Hw].
  - unfold StepAll.
    eapply run_rel_wired; [now apply for_stack_run_rel|].
    now apply PushOrPop_wired.
  - unfold DrawAll.
    eapply run_rel_wired; [now apply for_stack_run_rel|].
    eapply run_rel_wired; [now apply for_stack_run_rel|exact Hw].
  - revert Hw. apply wired_same; [reflexivity|].
    intros p [[]|[]].
  - revert Hw. apply wired_same; [reflexivity|auto].
  - revert Hw. apply wired_same; [reflexivity|auto].
Qed.

Lemma fresh_wired (w : W) : wired (fresh w).
Proof.
  split.
  - intros p [[]|[]].
  - intros before c after Hl. now destruct before.
Qed.

(** C10: [Push] calls [SetUI] on the panel of the handle it is given and
    puts the handle at the end of the push queue, without touching the
    stack; it tests nothing, so on an empty handle it has no defined result.
    The test for an empty handle is in the apply step, which passes over
    empty handles.  In every run of a controller, every panel in the stack or
    in the push queue has had [SetUI] called on it, and no other method of a
    panel is called before [SetUI] has been called on that panel. *)
Theorem Push_wires_before_dispatch (s : State) (p : Panel) :
  Push None s = None /\
  Push (Some p) s = Some (push_panel p s) /\
  log (push_panel p s) = log s ++ [mkCall p SetUI (stack (ui s))] /\
  world (push_panel p s) = wire p (world s) /\
  toPush (ui (push_panel p s)) = toPush (ui s) ++ [Some p] /\
  stack (ui (push_panel p s)) = stack (ui s) /\
  (forall tp st,
      push_pending (None :: tp) st = push_pending tp st /\
      push_pending tp st = st ++ pushed tp) /\
  (forall w cs, wired (run cs (fresh w))).
Proof.
  repeat (split; [reflexivity|]). split.
  - intros tp st. split; [reflexivity|apply push_pending_pushed].
  - intros w cs. unfold run.
    generalize (fresh_wired w). generalize (fresh w) as s0.
    induction cs as [|c cs IH]; intros s0 H0; cbn [fold_left]; [exact H0|].
    apply IH. now apply host_step_wired.
Qed.

End Wiring.

(** ** Taps and owners *)

Section Fingers.

Context {E : Env}.

Lemma click_count_elapsed (now last : Z) :
  click_count now last
  = if ((now - last) mod 2 ^ 32 <=? 500)%Z then 2%Z else 1%Z.
Proof.
  unfold click_count.
  destruct (Z.ltb_spec 500 ((now - last) mod 2 ^ 32));
    destruct (Z.leb_spec ((now - last) mod 2 ^ 32) 500); lia || reflexivity.
Qed.

Lemma no_Release_in_wiring (l : list Call) :
  Forall (fun c => method c = SetUI) l ->
  existsb (fun c => is_Release (method c)) l = false.
Proof.
  induction 1 as [|c l Hc _ IH]; [reflexivity|].
  cbn [existsb]. now rewrite Hc, IH.
Qed.

(** One call, as the finger branches need it. *)
Lemma call_effect (p : Panel) (m : Method) (s : State) :
  is_SetUI m = false ->
  same_fingers s (snd (call p m s)) /\
  exists l,
    log (snd (call p m s)) = log s ++ l /\
    panel_calls l = [(p, m)] /\
    existsb (fun c => is_Release (method c)) l = is_Release m.
Proof.
  intro Hm.
  destruct (call_log p m s) as (_ & Hk & _ & l & Hl & Hf & _).
  split; [exact Hk|].
  assert (Hw : Forall (fun c => method c = SetUI) l)
    by (eapply Forall_impl; [|exact Hf]; now intros c [Hc _]).
  exists (mkCall p m (stack (ui s)) :: l). split; [exact Hl|].
  split.
  - change (mkCall p m (stack (ui s)) :: l)
      with ([mkCall p m (stack (ui s))] ++ l).
    rewrite panel_calls_app, (panel_calls_wiring l Hw), app_nil_r.
    unfold panel_calls. cbn [filter method]. now rewrite Hm.
  - cbn [existsb method]. rewrite (no_Release_in_wiring l Hw).
    apply orb_false_r.
Qed.

(** C5 (as amended): on the click fallback of a touch-down the panel gets
    one click, with click-count 2 when at most 500 ms have passed since
    [lastTap] (the difference taken modulo 2^32) and click-count 1 when more
    than 500 ms have passed, and [lastTap] becomes the time of this tap; so
    the click of the next tap to come through the fallback, if [lastTap] is
    still that time, counts 2 when the two taps are at most 500 ms apart and
    1 when they are further apart.  A touch-down comes to the fallback when
    neither a zone nor the finger-down notification of the panel takes it. *)
Theorem click_fallback_counts_taps (p : Panel) (x y f : Z) (s : State) :
  let now := SDL_GetTicks (world s) in
  let after := snd (click_fallback p x y f s) in
  panel_calls (added s after)
    = [(p, Click x y
              (if ((now - lastTap (ui s)) mod 2 ^ 32 <=? 500)%Z
               then 2%Z else 1%Z))] /\
  lastTap (ui after) = now /\
  (forall q x' y' f' s2,
      lastTap (ui s2) = lastTap (ui after) ->
      panel_calls (added s2 (snd (click_fallback q x' y' f' s2)))
      = [(q, Click x' y'
                (if ((SDL_GetTicks (world s2) - now) mod 2 ^ 32 <=? 500)%Z
                 then 2%Z else 1%Z))]) /\
  (forall fx fy s0,
      let x0 := finger_pos fx (Screen_Width (world s0)) in
      let y0 := finger_pos fy (Screen_Height (world s0)) in
      let zone := call p (ZoneMouseDown x0 y0) s0 in
      let down := call p (FingerDown x0 y0 f)
                       (snd (call p (Hover x0 y0) (snd zone))) in
      fst zone = false -> fst down = false ->
      turn (SDL_FINGERDOWN f fx fy) p false s0
      = click_fallback p x0 y0 f (snd down)).
Proof.
  assert (Hcalls : forall q x' y' f' s2,
             panel_calls (added s2 (snd (click_fallback q x' y' f' s2)))
             = [(q, Click x' y'
                       (if ((SDL_GetTicks (world s2) - lastTap (ui s2))
                              mod 2 ^ 32 <=? 500)%Z
                        then 2%Z else 1%Z))]).
  { intros q x' y' f' s2. unfold click_fallback.
    rewrite click_count_elapsed.
    set (n := if ((SDL_GetTicks (world s2) - lastTap (ui s2)) mod 2 ^ 32 <=? 500)%Z
              then 2%Z else 1%Z).
    destruct (call_effect q (Click x' y' n) s2 eq_refl)
      as (_ & l & Hl & Hc & _).
    destruct (call q (Click x' y' n) s2) as [h s3]. cbn [snd] in *.
    rewrite (added_app s2 _ l); [exact Hc|]. now destruct h. }
  intros now after. split; [apply Hcalls|].
  assert (Htap : lastTap (ui after) = now).
  { unfold after, click_fallback.
    destruct (call p (Click x y (click_count (SDL_GetTicks (world s))
                                             (lastTap (ui s)))) s) as [h s3].
    reflexivity. }
  split; [exact Htap|]. split.
  - intros q x' y' f' s2 Hlast. rewrite Hcalls, Hlast, Htap. reflexivity.
  - intros fx fy s0 x0 y0 zone down Hz Hd.
    unfold turn. fold x0 y0. cbn [negb].
    fold zone. destruct zone as [hz sz] eqn:Ezone. cbn [fst snd] in *.
    subst hz. cbn [negb].
    destruct (call p (Hover x0 y0) sz) as [hh sh]. cbn [snd] in *.
    unfold down in *. destruct (call p (FingerDown x0 y0 f) sh) as [hd sd].
    cbn [fst snd] in *. subst hd. reflexivity.
Qed.

Lemma up_rel_refl (s : State) : up_rel s s.
Proof.
  split; [now left|]. exists []. rewrite app_nil_r. cbn.
  split; [reflexivity|]. split; [discriminate|reflexivity].
Qed.

Lemma up_rel_trans (a b c : State) : up_rel a b -> up_rel b c -> up_rel a c.
Proof.
  intros (Hz1 & l1 & Hl1 & Hy1 & Hn1) (Hz2 & l2 & Hl2 & Hy2 & Hn2). split.
  - destruct Hz2 as [Hz2|Hz2]; [rewrite Hz2; exact Hz1|now right].
  - exists (l1 ++ l2). split; [rewrite Hl2, Hl1; now rewrite app_assoc|].
    rewrite existsb_app.
    destruct (existsb (fun c => is_Release (method c)) l2).
    + rewrite orb_true_r. split; [auto|discriminate].
    + rewrite orb_false_r. rewrite (Hn2 eq_refl). auto.
Qed.

Ltac open_up_call p m st :=
  let Hz := fresh "Hz" in
  let Hp := fresh "Hp" in
  let l := fresh "l" in
  let Hl := fresh "Hl" in
  let Hr := fresh "Hr" in
  let h := fresh "h" in
  let s' := fresh "s" in
  destruct (call_effect p m st eq_refl) as ((Hz & Hp & _) & l & Hl & _ & Hr);
  destruct (call p m st) as [h s']; cbn [fst snd] in *.

Ltac close_up :=
  unfold up_rel;
  cbn [on_ui ui log zoneFingerId panelFingerId
       set_zoneFingerId set_panelFingerId fst snd] in *;
  repeat match goal with
         | H : log _ = _ |- _ => rewrite H in *; clear H
         end;
  repeat split;
  try (eexists; split;
       [rewrite <- ?app_assoc; reflexivity|];
       rewrite ?existsb_app;
       repeat match goal with
              | H : existsb _ _ = _ |- _ => rewrite H; clear H
              end;
       cbn [existsb is_Release orb]; split);
  intros; try discriminate; try congruence; auto;
  try (left; congruence); try (right; congruence).

(** One turn of a touch-up. *)
Lemma up_turn (f : Z) (fx fy : float) (p : Panel) (s : State) :
  let r := turn (SDL_FINGERUP f fx fy) p false s in
  up_rel s (snd r) /\
  (zoneFingerId (ui s) = f -> zoneFingerId (ui (snd r)) = no_finger) /\
  (panelFingerId (ui s) = f -> fst r = false ->
   panelFingerId (ui (snd r)) = no_finger).
Proof.
  unfold turn. cbn [negb andb].
  set (x := finger_pos fx (Screen_Width (world s))).
  set (y := finger_pos fy (Screen_Height (world s))).
  destruct (Z.eqb_spec (zoneFingerId (ui s)) f) as [Ez|Ez].
  - open_up_call p (ZoneMouseUp x y) s.
    destruct h; cbn [negb andb].
    + close_up.
    + open_up_call p (FingerUp x y f) (on_ui (set_zoneFingerId no_finger) s0).
      destruct h; cbn [negb andb]; [close_up|].
      destruct (Z.eqb_spec (panelFingerId (ui s1)) f) as [Ep|Ep].
      * open_up_call p (Release x y) s1. close_up.
      * close_up; elim Ep; congruence.
  - open_up_call p (FingerUp x y f) s.
    destruct h; cbn [negb andb]; [close_up|].
    destruct (Z.eqb_spec (panelFingerId (ui s0)) f) as [Ep|Ep].
    + open_up_call p (Release x y) s0. close_up.
    + close_up; elim Ep; congruence.
Qed.

Lemma up_walk (f : Z) (fx fy : float) (i : nat) (h : bool) (s : State) :
  up_rel s (snd (walk (SDL_FINGERUP f fx fy) i h s)).
Proof.
  apply walk_stable.
  - apply up_rel_refl.
  - apply up_rel_trans.
  - intros p [|] s0 _ _.
    + unfold turn. cbn [negb andb snd]. apply up_rel_refl.
    + apply (up_turn f fx fy p s0).
Qed.

Lemma walk_handled (ev : SDL_Event) (i : nat) (s : State) :
  walk ev i true s = (true, s).
Proof. now destruct i. Qed.

(** Whether some handle below the iterator holds a panel that is not waiting
    to be popped. *)
Lemma takes_turn_nth (s : State) :
  takes_turn s = true <->
  exists j p, nth_error (stack (ui s)) j = Some p /\ queued p (ui s) = false.
Proof.
  unfold takes_turn. rewrite existsb_exists. split.
  - intros (p & Hin & Hq). destruct (In_nth_error _ _ Hin) as [j Hj].
    exists j, p. split; [exact Hj|]. now destruct (queued p (ui s)).
  - intros (j & p & Hj & Hq). exists p.
    split; [exact (nth_error_In _ _ Hj)|]. now rewrite Hq.
Qed.

Lemma walk_no_turn (ev : SDL_Event) (s : State) :
  (forall j p, nth_error (stack (ui s)) j = Some p -> queued p (ui s) = true) ->
  forall i h, walk ev i h s = (h, s).
Proof.
  intros Hall. induction i as [|j IH]; intro h; [reflexivity|].
  cbn [walk]. destruct h; [reflexivity|].
  destruct (nth_error (stack (ui s)) j) as [p|] eqn:Hn; [|reflexivity].
  rewrite (Hall j p Hn). apply IH.
Qed.

Lemma up_walk_first (f : Z) (fx fy : float) (i : nat) (s : State) :
  i <= length (stack (ui s)) ->
  (exists j p, j < i /\ nth_error (stack (ui s)) j = Some p /\
               queued p (ui s) = false) ->
  let r := walk (SDL_FINGERUP f fx fy) i false s in
  (zoneFingerId (ui s) = f -> zoneFingerId (ui (snd r)) = no_finger) /\
  (panelFingerId (ui s) = f -> fst r = false ->
   panelFingerId (ui (snd r)) = no_finger).
Proof.
  induction i as [|k IH]; intros Hi (j & p & Hj & Hn & Hq).
  - lia.
  - cbn [walk].
    destruct (nth_error (stack (ui s)) k) as [q|] eqn:Hk.
    2:{ apply nth_error_None in Hk. lia. }
    destruct (queued q (ui s)) eqn:Hqq.
    + apply IH; [lia|]. exists j, p. split; [|split; assumption].
      assert (j <> k) by (intros ->; congruence). lia.
    + destruct (up_turn f fx fy q s) as (_ & Hzone & Hdrag).
      destruct (turn (SDL_FINGERUP f fx fy) q false s) as [h' s'].
      cbn [fst snd] in Hzone, Hdrag.
      destruct (TrapAllEvents q (world s')); [split; assumption|].
      destruct (up_walk f fx fy k h' s')
        as ([Hz|Hz] & l & Hl & Hy & Hn').
      * split.
        -- intro Hf. rewrite Hz. now apply Hzone.
        -- intros Hf Hr. destruct h'.
           ++ rewrite walk_handled in Hr. discriminate Hr.
           ++ destruct (existsb (fun c => is_Release (method c)) l);
                [now apply Hy|rewrite Hn' by reflexivity; now apply Hdrag].
      * split; [intros _; exact Hz|].
        intros Hf Hr. destruct h'.
        -- rewrite walk_handled in Hr. discriminate Hr.
        -- destruct (existsb (fun c => is_Release (method c)) l);
             [now apply Hy|rewrite Hn' by reflexivity; now apply Hdrag].
Qed.

(** The steps of one turn of a touch-up, one after the other: the zone
    release if the finger owns a zone, the finger-up notification if that
    did not take the event, the generic release if that did not either and
    the finger owns the drag. *)
Lemma up_turn_steps (f : Z) (fx fy : float) (p : Panel) (s1 : State) :
  let x := finger_pos fx (Screen_Width (world s1)) in
  let y := finger_pos fy (Screen_Height (world s1)) in
  let owns := (zoneFingerId (ui s1) =? f)%Z in
  let zone := if owns then call p (ZoneMouseUp x y) s1 else (false, s1) in
  let cleared :=
    if owns then on_ui (set_zoneFingerId no_finger) (snd zone) else s1 in
  let up := call p (FingerUp x y f) cleared in
  let rel := call p (Release x y) (snd up) in
  (panelFingerId (ui cleared) = panelFingerId (ui s1) /\
   existsb (fun c => is_Release (method c)) (added s1 cleared) = false) /\
  (panelFingerId (ui (snd up)) = panelFingerId (ui s1) /\
   existsb (fun c => is_Release (method c)) (added s1 (snd up)) = false) /\
  turn (SDL_FINGERUP f fx fy) p false s1
  = if fst zone then (true, cleared)
    else if fst up then (true, snd up)
    else if (panelFingerId (ui s1) =? f)%Z
         then (fst rel, on_ui (set_panelFingerId no_finger) (snd rel))
         else (false, snd up).
Proof.
  intros x y owns zone cleared up rel.
  assert (Hc : panelFingerId (ui cleared) = panelFingerId (ui s1) /\
               exists l, log cleared = log s1 ++ l /\
                         existsb (fun c => is_Release (method c)) l = false).
  { unfold cleared, zone. destruct owns.
    - destruct (call_effect p (ZoneMouseUp x y) s1 eq_refl)
        as ((_ & Hp & _) & l & Hl & _ & Hr).
      split; [exact Hp|]. exists l. split; [exact Hl|exact Hr].
    - split; [reflexivity|]. exists []. now rewrite app_nil_r. }
  destruct Hc as (Hpc & lc & Hlc & Hrc).
  assert (Hu : panelFingerId (ui (snd up)) = panelFingerId (ui s1) /\
               existsb (fun c => is_Release (method c)) (added s1 (snd up))
               = false).
  { unfold up.
    destruct (call_effect p (FingerUp x y f) cleared eq_refl)
      as ((_ & Hp & _) & l & Hl & _ & Hr).
    split; [congruence|].
    rewrite (added_app s1 _ (lc ++ l)).
    - rewrite existsb_app, Hrc, Hr. reflexivity.
    - rewrite Hl, Hlc. now rewrite app_assoc. }
  split; [split; [exact Hpc|now rewrite (added_app _ _ _ Hlc)]|].
  split; [exact Hu|]. destruct Hu as [Hpu _].
  unfold turn. cbn [negb andb]. fold x y owns.
  unfold rel, up, cleared, zone in *. clear rel up cleared zone.
  destruct owns.
  - destruct (call p (ZoneMouseUp x y) s1) as [hz sz]. cbn [fst snd] in *.
    destruct hz; cbn [negb andb]; [reflexivity|].
    destruct (call p (FingerUp x y f) (on_ui (set_zoneFingerId no_finger) sz))
      as [hu su]. cbn [fst snd] in *.
    destruct hu; cbn [negb andb]; [reflexivity|].
    rewrite Hpu. destruct (panelFingerId (ui s1) =? f)%Z; [|reflexivity].
    now destruct (call p (Release x y) su).
  - cbn [fst snd negb andb] in *.
    destruct (call p (FingerUp x y f) s1) as [hu su]. cbn [fst snd] in *.
    destruct hu; cbn [negb andb]; [reflexivity|].
    rewrite Hpu. destruct (panelFingerId (ui s1) =? f)%Z; [|reflexivity].
    now destruct (call p (Release x y) su).
Qed.

(** C4 (as amended): for a touch-up of finger [f] dispatched through
    [Handle] in which some panel takes a turn, the zone owner is cleared if
    it was [f], whatever the zone release returned.  The drag owner is
    cleared when the generic release is called, whatever it returns, and
    keeps its value when it is not called; it is called, in particular, when
    the drag owner was [f], some panel took a turn and the call returns
    unhandled.  When no panel takes a turn both owners keep their values.
    Turn by turn: when the zone release of the panel takes the event, or its
    finger-up notification does, the walk ends there, the generic release is
    not called and the drag owner keeps its value; when neither takes it, the
    generic release is called if [f] owns the drag, and the owner is then
    cleared whatever the release returns, and is not called otherwise. *)
Theorem finger_up_clears_owner_when_reached (f : Z) (fx fy : float)
    (s : State) :
  let r := Handle (SDL_FINGERUP f fx fy) s in
  (takes_turn s = true -> zoneFingerId (ui s) = f ->
   zoneFingerId (ui (snd r)) = no_finger) /\
  (existsb (fun c => is_Release (method c)) (added s (snd r)) = true ->
   panelFingerId (ui (snd r)) = no_finger) /\
  (existsb (fun c => is_Release (method c)) (added s (snd r)) = false ->
   panelFingerId (ui (snd r)) = panelFingerId (ui s)) /\
  (takes_turn s = true -> panelFingerId (ui s) = f -> fst r = false ->
   panelFingerId (ui (snd r)) = no_finger) /\
  (takes_turn s = false ->
   zoneFingerId (ui (snd r)) = zoneFingerId (ui s) /\
   panelFingerId (ui (snd r)) = panelFingerId (ui s)) /\
  (forall j p s1,
      nth_error (stack (ui s1)) j = Some p ->
      queued p (ui s1) = false ->
      let ev := SDL_FINGERUP f fx fy in
      let x := finger_pos fx (Screen_Width (world s1)) in
      let y := finger_pos fy (Screen_Height (world s1)) in
      let owns := (zoneFingerId (ui s1) =? f)%Z in
      let zone := if owns then call p (ZoneMouseUp x y) s1 else (false, s1) in
      let cleared :=
        if owns then on_ui (set_zoneFingerId no_finger) (snd zone) else s1 in
      let up := call p (FingerUp x y f) cleared in
      let rel := call p (Release x y) (snd up) in
      (fst zone = true ->
       walk ev (S j) false s1 = (true, cleared) /\
       panelFingerId (ui cleared) = panelFingerId (ui s1) /\
       existsb (fun c => is_Release (method c)) (added s1 cleared) = false /\
       (forall s0,
           walk_at ev (length (stack (ui s0))) false s0 (S j) false s1 ->
           Handle ev s0 = (true, on_ui PushOrPop cleared))) /\
      (fst zone = false -> fst up = true ->
       walk ev (S j) false s1 = (true, snd up) /\
       panelFingerId (ui (snd up)) = panelFingerId (ui s1) /\
       existsb (fun c => is_Release (method c)) (added s1 (snd up)) = false /\
       (forall s0,
           walk_at ev (length (stack (ui s0))) false s0 (S j) false s1 ->
           Handle ev s0 = (true, on_ui PushOrPop (snd up)))) /\
      (fst zone = false -> fst up = false -> panelFingerId (ui s1) <> f ->
       turn ev p false s1 = (false, snd up) /\
       panelFingerId (ui (snd up)) = panelFingerId (ui s1) /\
       existsb (fun c => is_Release (method c)) (added s1 (snd up)) = false) /\
      (fst zone = false -> fst up = false -> panelFingerId (ui s1) = f ->
       turn ev p false s1
       = (fst rel, on_ui (set_panelFingerId no_finger) (snd rel)))).
Proof.
  intro r.
  set (n := length (stack (ui s))).
  set (w := walk (SDL_FINGERUP f fx fy) n false s).
  assert (Hr : r = (fst w, on_ui PushOrPop (snd w))) by apply Handle_unfold.
  assert (Hfirst : takes_turn s = true ->
            (zoneFingerId (ui s) = f -> zoneFingerId (ui (snd w)) = no_finger) /\
            (panelFingerId (ui s) = f -> fst w = false ->
             panelFingerId (ui (snd w)) = no_finger)).
  { intro Ht. apply takes_turn_nth in Ht. destruct Ht as (j & p & Hj & Hq).
    apply up_walk_first; [unfold n; lia|].
    exists j, p. split; [|split; assumption].
    unfold n. apply nth_error_Some. now rewrite Hj. }
  destruct (up_walk f fx fy n false s) as (_ & l & Hl & Hy & Hn).
  fold w in Hl, Hy, Hn.
  assert (Hadd : added s (snd r) = l)
    by (rewrite Hr; exact (added_app s (on_ui PushOrPop (snd w)) l Hl)).
  assert (Hzr : zoneFingerId (ui (snd r)) = zoneFingerId (ui (snd w)))
    by (now rewrite Hr).
  assert (Hpr : panelFingerId (ui (snd r)) = panelFingerId (ui (snd w)))
    by (now rewrite Hr).
  assert (Hfr : fst r = fst w) by (now rewrite Hr).
  split; [intros Ht Hf; rewrite Hzr; now apply Hfirst|].
  split; [rewrite Hadd, Hpr; exact Hy|].
  split; [rewrite Hadd, Hpr; exact Hn|].
  split; [intros Ht Hf Hu; rewrite Hpr; apply Hfirst; congruence|].
  split.
  { intro Ht. rewrite Hzr, Hpr. unfold w.
    rewrite walk_no_turn; [split; reflexivity|].
    intros j p Hj. destruct (queued p (ui s)) eqn:Hq; [reflexivity|].
    assert (takes_turn s = true) by (apply takes_turn_nth; eauto).
    congruence. }
  clear. intros j p s1 Hj Hq ev x y owns zone cleared up rel.
  destruct (up_turn_steps f fx fy p s1) as ((Hpc & Hrc) & (Hpu & Hru) & Hturn).
  fold ev x y owns zone cleared up rel in Hpc, Hrc, Hpu, Hru, Hturn.
  assert (Hstop : forall s', turn ev p false s1 = (true, s') ->
            walk ev (S j) false s1 = (true, s') /\
            (forall s0,
                walk_at ev (length (stack (ui s0))) false s0 (S j) false s1 ->
                Handle ev s0 = (true, on_ui PushOrPop s'))).
  { intros s' Ht.
    assert (Hw : walk ev (S j) false s1 = (true, s')).
    { cbn [walk]. rewrite Hj, Hq, Ht.
      destruct (TrapAllEvents p (world s')); [reflexivity|].
      apply walk_handled. }
    split; [exact Hw|]. intros s0 Hat.
    now rewrite Handle_unfold, (walk_at_walk Hat), Hw. }
  split; [|split; [|split]].
  - intro Hz. rewrite Hz in Hturn. destruct (Hstop _ Hturn) as [Hw Hh].
    auto.
  - intros Hz Hu. rewrite Hz, Hu in Hturn. destruct (Hstop _ Hturn) as [Hw Hh].
    auto.
  - intros Hz Hu Hne. rewrite Hz, Hu in Hturn.
    apply Z.eqb_neq in Hne. rewrite Hne in Hturn. auto.
  - intros Hz Hu He. rewrite Hz, Hu in Hturn.
    apply Z.eqb_eq in He. now rewrite He in Hturn.
Qed.


End Fingers.

(** ** The controller at work in the small world *)

Example first_tap_is_single :
  panel_calls (log first_tap)
  = [(1, ZoneMouseDown 10 10); (1, Hover 10 10); (1, FingerDown 10 10 7);
     (1, Click 10 10 1)].
Proof. reflexivity. Qed.

(** C5 (as stated) fails: two taps 500 ms apart, which is "at least 500 ms
    apart", and the second is delivered with click-count 2, not 1. *)
Lemma taps_500_ms_apart_double_click :
  panel_calls (added first_tap second_tap)
  = [(1, ZoneMouseDown 10 10); (1, Hover 10 10); (1, FingerDown 10 10 7);
     (1, Click 10 10 2)] /\
  spec_click_count (1500 - 1000) = 1%Z /\
  panel_calls (added first_tap second_tap)
  <> [(1, ZoneMouseDown 10 10); (1, Hover 10 10); (1, FingerDown 10 10 7);
      (1, Click 10 10 (spec_click_count (1500 - 1000)))].
Proof.
  split; [reflexivity|]. split; [reflexivity|].
  vm_compute. discriminate.
Qed.

Lemma click_fallback_counts_taps_witness :
  panel_calls
    (added (mkState (E:=demo) (ui first_tap) 1500%Z (log first_tap))
       (snd (click_fallback (E:=demo) 1 10 10 7
               (mkState (E:=demo) (ui first_tap) 1500%Z (log first_tap)))))
  = [(1, Click 10 10 2)] /\
  turn (E:=demo) tap 1 false (mkState (E:=demo) (idle [1]) 1000%Z [])
  = click_fallback (E:=demo) 1 10 10 7
      (mkState (E:=demo) (idle [1]) 1000%Z
         [mkCall 1 (ZoneMouseDown 10 10) [1]; mkCall 1 (Hover 10 10) [1];
          mkCall 1 (FingerDown 10 10 7) [1]]).
Proof.
  destruct (click_fallback_counts_taps (E:=demo) 1 10 10 7
              (mkState (E:=demo) (idle [1]) 1000%Z []))
    as (_ & _ & Hnext & Hreach).
  split.
  - apply (Hnext 1 10%Z 10%Z 7%Z
             (mkState (E:=demo) (ui first_tap) 1500%Z (log first_tap))).
    reflexivity.
  - apply (Hreach 10%Z 10%Z (mkState (E:=demo) (idle [1]) 1000%Z []));
      reflexivity.
Defined.

(** C4 (as stated) fails, twice.  Finger 3 owns a drag and is lifted over a
    panel that takes the finger-up notification: the event is handled before
    the generic release and finger 3 still owns the drag after the call.  And
    with no panel in the stack nothing is cleared at all. *)
Lemma finger_up_keeps_owner :
  ~ up_clears_owners (E:=demo) 3 10 10 dragging_over_2 /\
  ~ up_clears_owners (E:=demo) 3 10 10 owners_no_panel.
Proof.
  split; intros [Hz Hp].
  - specialize (Hp eq_refl). vm_compute in Hp. discriminate Hp.
  - specialize (Hz eq_refl). vm_compute in Hz. discriminate Hz.
Qed.

Lemma finger_up_clears_owner_when_reached_witness :
  (zoneFingerId
     (ui (snd (Handle (E:=demo) (SDL_FINGERUP 3 10 10) owners_over_1)))
   = no_finger /\
   panelFingerId
     (ui (snd (Handle (E:=demo) (SDL_FINGERUP 3 10 10) owners_over_1)))
   = no_finger) /\
  panelFingerId
    (ui (snd (Handle (E:=demo) (SDL_FINGERUP 3 10 10) dragging_over_2)))
  = panelFingerId (ui dragging_over_2) /\
  zoneFingerId
    (ui (snd (Handle (E:=demo) (SDL_FINGERUP 3 10 10) owners_no_panel)))
  = zoneFingerId (ui owners_no_panel) /\
  Handle (E:=demo) (SDL_FINGERUP 3 10 10) dragging_over_2
  = (true,
     on_ui PushOrPop
       (snd (call (E:=demo) 2 (FingerUp 10 10 3) dragging_over_2))) /\
  turn (E:=demo) (SDL_FINGERUP 3 10 10) 1 false
       (mkState (E:=demo) (mkUI [1] [] [] false false no_finger 3%Z 0%Z) 0%Z [])
  = (false,
     on_ui (set_panelFingerId no_finger)
       (mkState (E:=demo) (mkUI [1] [] [] false false no_finger 3%Z 0%Z) 0%Z
          [mkCall 1 (FingerUp 10 10 3) [1]; mkCall 1 (Release 10 10) [1]])) /\
  turn (E:=demo) (SDL_FINGERUP 4 10 10) 1 false
       (mkState (E:=demo) (mkUI [1] [] [] false false no_finger 3%Z 0%Z) 0%Z [])
  = (false,
     mkState (E:=demo) (mkUI [1] [] [] false false no_finger 3%Z 0%Z) 0%Z
       [mkCall 1 (FingerUp 10 10 4) [1]]).
Proof.
  split; [|split; [|split; [|split; [|split]]]].
  - destruct (finger_up_clears_owner_when_reached (E:=demo) 3 10 10
                owners_over_1) as (Hz & Hr & _ & Hu & _).
    split; [apply Hz; reflexivity|].
    assert (Hsame : panelFingerId
                      (ui (snd (Handle (E:=demo) (SDL_FINGERUP 3 10 10)
                                  owners_over_1))) = no_finger)
      by (apply Hu; reflexivity).
    apply Hr. reflexivity.
  - destruct (finger_up_clears_owner_when_reached (E:=demo) 3 10 10
                dragging_over_2) as (_ & _ & Hn & _).
    apply Hn. reflexivity.
  - destruct (finger_up_clears_owner_when_reached (E:=demo) 3 10 10
                owners_no_panel) as (_ & _ & _ & _ & Hnone & _).
    apply Hnone. reflexivity.
  - destruct (finger_up_clears_owner_when_reached (E:=demo) 3 10 10
                dragging_over_2) as (_ & _ & _ & _ & _ & Hturns).
    pose proof (Hturns 0 2 dragging_over_2 eq_refl eq_refl) as H.
    cbv zeta in H. destruct H as (_ & Hb & _).
    destruct (Hb eq_refl eq_refl) as (_ & _ & _ & Hh).
    apply (Hh dragging_over_2). apply walk_here.
  - destruct (finger_up_clears_owner_when_reached (E:=demo) 3 10 10
                dragging_over_2) as (_ & _ & _ & _ & _ & Hturns).
    pose proof (Hturns 0 1
                  (mkState (E:=demo)
                     (mkUI [1] [] [] false false no_finger 3%Z 0%Z) 0%Z [])
                  eq_refl eq_refl) as H.
    cbv zeta in H. destruct H as (_ & _ & _ & Hd).
    exact (Hd eq_refl eq_refl eq_refl).
  - destruct (finger_up_clears_owner_when_reached (E:=demo) 4 10 10
                dragging_over_2) as (_ & _ & _ & _ & _ & Hturns).
    pose proof (Hturns 0 1
                  (mkState (E:=demo)
                     (mkUI [1] [] [] false false no_finger 3%Z 0%Z) 0%Z [])
                  eq_refl eq_refl) as H.
    cbv zeta in H. destruct H as (_ & _ & Hc & _).
    destruct Hc as (Ht & _); [reflexivity|reflexivity|discriminate|].
    exact Ht.
Defined.

Lemma Handle_skips_queued_panel_witness :
  deliveries_to 6
    (added (mkState (E:=demo) (set_toPop [Some 6] (idle [6; 1])) 0%Z [])
       (snd (Handle (E:=demo) (SDL_MOUSEBUTTONDOWN 1 10 10 1)
               (mkState (E:=demo) (set_toPop [Some 6] (idle [6; 1])) 0%Z []))))
  = [] /\
  walk (E:=demo) (SDL_MOUSEBUTTONDOWN 1 10 10 1) 1 false
       (mkState (E:=demo) (set_toPop [Some 6] (idle [6])) 0%Z [])
  = walk (E:=demo) (SDL_MOUSEBUTTONDOWN 1 10 10 1) 0 false
       (mkState (E:=demo) (set_toPop [Some 6] (idle [6])) 0%Z []).
Proof.
  destruct (Handle_skips_queued_panel (E:=demo)
              (SDL_MOUSEBUTTONDOWN 1 10 10 1) 6) as (Hskip & _ & Hcall).
  split.
  - apply (Hcall (mkState (E:=demo) (set_toPop [Some 6] (idle [6; 1])) 0%Z [])
                 0
                 (snd (turn (E:=demo) (SDL_MOUSEBUTTONDOWN 1 10 10 1) 1 false
                         (mkState (E:=demo) (set_toPop [Some 6] (idle [6; 1]))
                                  0%Z [])))).
    + apply (@walk_turn demo (SDL_MOUSEBUTTONDOWN 1 10 10 1) 1
               (mkState (E:=demo) (set_toPop [Some 6] (idle [6; 1])) 0%Z [])
               1 false
               (snd (turn (E:=demo) (SDL_MOUSEBUTTONDOWN 1 10 10 1) 1 false
                       (mkState (E:=demo) (set_toPop [Some 6] (idle [6; 1]))
                                0%Z [])))
               1 false
               (snd (turn (E:=demo) (SDL_MOUSEBUTTONDOWN 1 10 10 1) 1 false
                       (mkState (E:=demo) (set_toPop [Some 6] (idle [6; 1]))
                                0%Z [])))); try reflexivity.
      apply walk_here.
    + reflexivity.
    + reflexivity.
    + intros [|[|k]] Hk H; [lia|discriminate H|].
      cbn in H. destruct k; discriminate H.
  - apply (Hskip 0 (mkState (E:=demo) (set_toPop [Some 6] (idle [6])) 0%Z []));
      reflexivity.
Defined.

Example pushed_twice_stack : stack (ui pushed_twice) = [6; 6].
Proof. reflexivity. Qed.

(** C7 (as stated) fails: panel 6 is in the stack twice.  At the top handle
    it is not in the pop queue, has its zones asked and is clicked, and asks
    to be popped; when the walk comes to the lower handle the panel is in the
    pop queue and is passed over, yet two events were delivered to it during
    the call. *)
Lemma repeated_panel_receives_before_skip :
  ~ skipped_panel_untouched (E:=demo) press pushed_twice 0
      (snd (turn (E:=demo) press 6 false pushed_twice)) 6.
Proof.
  unfold skipped_panel_untouched. intro H.
  assert (Hat : walk_at (E:=demo) press (length (stack (ui pushed_twice)))
                  false pushed_twice 1 false
                  (snd (turn (E:=demo) press 6 false pushed_twice))).
  { apply (@walk_turn demo press 1 pushed_twice 6 false
             (snd (turn (E:=demo) press 6 false pushed_twice))
             1 false
             (snd (turn (E:=demo) press 6 false pushed_twice)));
      try reflexivity.
    apply walk_here. }
  specialize (H Hat eq_refl eq_refl). vm_compute in H. discriminate H.
Qed.

Lemma Handle_stops_at_trap_witness :
  walk (E:=demo) (SDL_MOUSEBUTTONDOWN 1 10 10 1) 2 false
       (mkState (E:=demo) (idle [1; 2]) 0%Z [])
  = turn (E:=demo) (SDL_MOUSEBUTTONDOWN 1 10 10 1) 2 false
       (mkState (E:=demo) (idle [1; 2]) 0%Z []).
Proof.
  destruct (Handle_stops_at_trap (E:=demo) (SDL_MOUSEBUTTONDOWN 1 10 10 1)
              1 2 (mkState (E:=demo) (idle [1; 2]) 0%Z [])
              (fst (turn (E:=demo) (SDL_MOUSEBUTTONDOWN 1 10 10 1) 2 false
                      (mkState (E:=demo) (idle [1; 2]) 0%Z [])))
              (snd (turn (E:=demo) (SDL_MOUSEBUTTONDOWN 1 10 10 1) 2 false
                      (mkState (E:=demo) (idle [1; 2]) 0%Z [])))
              eq_refl eq_refl eq_refl eq_refl) as (Hw & _).
  exact Hw.
Defined.

Lemma DrawAll_starts_at_topmost_fullscreen_witness :
  skipn
    (find_fullscreen (E:=demo) [1; 2; 1]
       (world (for_stack (E:=demo) ClearZones 3 0
                 (mkState (E:=demo) (idle [1; 2; 1]) 0%Z []))) 3)
    [1; 2; 1] = [2; 1] /\
  skipn
    (find_fullscreen (E:=demo) [1; 3]
       (world (for_stack (E:=demo) ClearZones 2 0
                 (mkState (E:=demo) (idle [1; 3]) 0%Z []))) 2)
    [1; 3] = [1; 3].
Proof.
  split.
  - destruct (DrawAll_starts_at_topmost_fullscreen (E:=demo)
                (mkState (E:=demo) (idle [1; 2; 1]) 0%Z [])) as (_ & Hfull & _).
    apply (Hfull [1] 2 [1]); [reflexivity|reflexivity|].
    intros x [<-|[]]. reflexivity.
  - destruct (DrawAll_starts_at_topmost_fullscreen (E:=demo)
                (mkState (E:=demo) (idle [1; 3]) 0%Z [])) as (_ & _ & Hnone).
    apply Hnone. intros x [<-|[<-|[]]]; reflexivity.
Defined.

(** Panel 3 is on top of panel 1 and is clicked: it pops itself and pushes
    panel 4, and after the call the stack is panel 1 with panel 4 on top;
    panel 4 was wired during the click and has received nothing yet. *)
Example click_pops_and_pushes :
  let s := snd (Handle (E:=demo) (SDL_MOUSEBUTTONDOWN 1 10 10 1)
                  (run (E:=demo) [HPush 1; HPush 3; HStepAll] (fresh (E:=demo) 0%Z))) in
  stack (ui s) = [1; 4] /\
  map (fun c => (callee c, method c)) (log s)
  = [(1, SetUI); (3, SetUI); (1, Step); (3, Step);
     (3, ZoneMouseDown (-490) (-390)); (3, Click (-490) (-390) 1);
     (4, SetUI)].
Proof. split; reflexivity. Qed.

(** Panel 6 sits in the stack twice.  At the top handle it takes its turn and
    asks to be popped; at the lower handle it is passed over. *)
Example repeated_panel_pops_itself :
  let s0 := mkState (E:=demo) (idle [6; 6]) 0%Z [] in
  panel_calls (added s0 (snd (Handle (E:=demo) (SDL_MOUSEBUTTONDOWN 1 10 10 1) s0)))
  = [(6, ZoneMouseDown (-490) (-390)); (6, Click (-490) (-390) 1)] /\
  stack (ui (snd (Handle (E:=demo) (SDL_MOUSEBUTTONDOWN 1 10 10 1) s0))) = [6].
Proof. split; reflexivity. Qed.

(** * Beyond the dispatch: queries, queues and phases *)

(** ** Top, Root and IsTop *)

Lemma rev_snoc_head (A : Type) (l : list A) (x : A) :
  rev (l ++ [x]) = x :: rev l.
Proof. now rewrite rev_app_distr. Qed.

Lemma all_hold_pushed (tp : list handle) :
  all_hold tp -> map Some (pushed tp) = tp.
Proof.
  induction 1 as [|h tp Hh _ IH]; [reflexivity|].
  destruct h as [p|]; [|now elim Hh].
  unfold pushed in *. cbn [flat_map app map]. now rewrite IH.
Qed.

(** X1: [Top] looks at the push queue first and [IsTop] never does: after
    [Push(p)], [Top] is [p], while [IsTop] answers as before the push, and so
    says no for a panel that is not in the stack. *)
Theorem Push_is_Top_not_IsTop {E : Env} (p : Panel) (s : State) :
  Top (ui (push_panel p s)) = Some p /\
  (forall panel, IsTop panel (ui (push_panel p s)) = IsTop panel (ui s)) /\
  (~ In p (stack (ui s)) -> IsTop (Some p) (ui (push_panel p s)) = false).
Proof.
  split; [|split].
  - unfold Top. cbn [push_panel ui toPush set_toPush].
    now rewrite rev_snoc_head.
  - reflexivity.
  - intro Hn. unfold IsTop. cbn [push_panel ui stack set_toPush].
    destruct (rev (stack (ui s))) as [|q l] eqn:Hr; [reflexivity|].
    apply ptr_eqb_neq. intros [= ->]. apply Hn, in_rev. rewrite Hr. now left.
Qed.

Lemma Push_is_Top_not_IsTop_witness :
  IsTop (Some 4) (ui (push_panel (E:=demo) 4
                        (mkState (E:=demo) (idle [1; 3]) 0%Z []))) = false.
Proof.
  destruct (Push_is_Top_not_IsTop (E:=demo) 4
              (mkState (E:=demo) (idle [1; 3]) 0%Z [])) as (_ & _ & H).
  apply H. simpl. intros [H1|[H1|[]]]; discriminate H1.
Defined.

(** X2: Once the queues have been applied, [IsTop] and [Top] name the same
    panel. *)
Theorem applied_Top_is_IsTop (u : UI) (p : Panel) :
  IsTop (Some p) (PushOrPop u) = true <-> Top (PushOrPop u) = Some p.
Proof.
  unfold IsTop, Top.
  change (toPush (PushOrPop u)) with (@nil handle). cbn [rev].
  destruct (rev (stack (PushOrPop u))) as [|q l].
  - split; intro H; discriminate H.
  - rewrite ptr_eqb_eq. split; intro H; exact H.
Qed.

(** X3: With nothing to pop and no empty handle in the push queue, [Top] and
    [Root] already answer what they will answer after the apply step, which
    puts the pushed panels on top of the stack in the order of the
    requests. *)
Theorem Top_Root_anticipate_apply (u : UI) :
  all_hold (toPush u) -> toPop u = [] ->
  stack (PushOrPop u) = stack u ++ pushed (toPush u) /\
  Top (PushOrPop u) = Top u /\
  Root (PushOrPop u) = Root u.
Proof.
  intros Hh Hq.
  assert (Hs : stack (PushOrPop u) = stack u ++ pushed (toPush u)).
  { cbn. rewrite Hq. cbn. apply push_pending_pushed. }
  split; [exact Hs|].
  pose proof (all_hold_pushed _ Hh) as Ht.
  unfold Top, Root. rewrite Hs.
  change (toPush (PushOrPop u)) with (@nil handle). cbn [rev].
  set (P := pushed (toPush u)) in *. clearbody P. rewrite <- Ht.
  clear Hs Ht. split.
  - destruct P as [|x P _] using rev_ind.
    + now rewrite app_nil_r.
    + rewrite map_app, app_assoc. cbn [map]. now rewrite !rev_snoc_head.
  - destruct (stack u) as [|q l]; [|reflexivity]. now destruct P.
Qed.

Lemma Top_Root_anticipate_apply_witness :
  Top (PushOrPop (set_toPush [Some 3; Some 4] (idle [1]))) = Some 4 /\
  Root (PushOrPop (set_toPush [Some 3; Some 4] (idle []))) = Some 3.
Proof.
  split.
  - destruct (Top_Root_anticipate_apply
                (set_toPush [Some 3; Some 4] (idle [1]))) as (_ & H & _);
      [repeat constructor; discriminate|reflexivity|exact H].
  - destruct (Top_Root_anticipate_apply
                (set_toPush [Some 3; Some 4] (idle []))) as (_ & _ & H);
      [repeat constructor; discriminate|reflexivity|exact H].
Defined.

(** X4: [IsEmpty] says that [Top] and [Root] have nothing to show; with no empty
    handle in the push queue, it is the only case in which they have
    nothing. *)
Theorem IsEmpty_iff_no_Top (u : UI) :
  (IsEmpty u = true -> Top u = None /\ Root u = None) /\
  (all_hold (toPush u) ->
   (Top u = None -> IsEmpty u = true) /\
   (Root u = None -> IsEmpty u = true)).
Proof.
  unfold IsEmpty, Top, Root. split.
  - destruct (stack u) as [|p st]; [|discriminate].
    destruct (toPush u) as [|h tp]; [|discriminate]. now split.
  - intro Hh. split.
    + destruct (toPush u) as [|h tp] using rev_ind.
      * cbn [rev]. destruct (stack u) as [|p st] using rev_ind;
          [reflexivity|]. rewrite rev_snoc_head. discriminate.
      * rewrite rev_snoc_head. intros ->.
        apply Forall_app in Hh. destruct Hh as [_ Hh].
        inversion Hh as [|? ? Hn _]. now elim Hn.
    + destruct (stack u) as [|p st]; [|discriminate].
      destruct (toPush u) as [|h tp]; [reflexivity|]. intros ->.
      inversion Hh as [|? ? Hn _]. now elim Hn.
Qed.

Lemma IsEmpty_iff_no_Top_witness :
  Top (idle []) = None /\ IsEmpty (idle []) = true.
Proof.
  destruct (IsEmpty_iff_no_Top (idle [])) as [H1 H2]. split.
  - apply H1. reflexivity.
  - apply H2; [constructor|reflexivity].
Defined.

(** ** The queues *)

Lemma set_queues_same (u : UI) :
  toPush u = [] -> toPop u = [] ->
  set_toPop [] (set_toPush [] (set_stack (stack u) u)) = u.
Proof. destruct u. cbn. now intros -> ->. Qed.

(** X5: The apply step does nothing when both queues are empty, so applying
    twice is applying once. *)
Theorem PushOrPop_idempotent (u : UI) :
  (toPush u = [] -> toPop u = [] -> PushOrPop u = u) /\
  PushOrPop (PushOrPop u) = PushOrPop u.
Proof.
  assert (H : forall v, toPush v = [] -> toPop v = [] -> PushOrPop v = v).
  { intros v Hp Hq. unfold PushOrPop. rewrite Hp, Hq. cbn [pop_pending
      push_pending fold_left]. now apply set_queues_same. }
  split; [apply H|]. now apply H.
Qed.

Lemma PushOrPop_idempotent_witness : PushOrPop (idle [1; 2]) = idle [1; 2].
Proof.
  destruct (PushOrPop_idempotent (idle [1; 2])) as [H _].
  apply H; reflexivity.
Defined.

(** X6: A [Pop] is applied after every request made before it: the stack is the
    one the earlier requests give, with the lowest handle of the panel taken
    out; a null pointer, or a panel that is neither in the stack nor in the
    push queue, changes nothing. *)
Theorem Pop_applies_last (panel : rawptr) (u : UI) :
  stack (PushOrPop (Pop panel u)) = erase_first panel (stack (PushOrPop u)) /\
  ((forall p, panel = Some p ->
              ~ In p (stack u) /\ ~ In (Some p) (toPush u)) ->
   stack (PushOrPop (Pop panel u)) = stack (PushOrPop u)).
Proof.
  assert (H : stack (PushOrPop (Pop panel u))
              = erase_first panel (stack (PushOrPop u))).
  { cbn. now rewrite pop_pending_app. }
  split; [exact H|]. intro Habs. rewrite H.
  destruct panel as [p|]; [|apply erase_first_null].
  apply erase_first_absent. intro Hin.
  cbn in Hin. apply pop_pending_incl in Hin.
  rewrite push_pending_pushed in Hin. apply in_app_iff in Hin.
  destruct (Habs p eq_refl) as [H1 H2].
  destruct Hin as [Hin|Hin]; [now apply H1|].
  apply H2. clear -Hin. unfold pushed in Hin. apply in_flat_map in Hin.
  destruct Hin as ([q|] & Hq & Hp); [|destruct Hp].
  destruct Hp as [->|[]]. exact Hq.
Qed.

Lemma Pop_applies_last_witness :
  stack (PushOrPop (Pop (Some 9) (idle [1; 2]))) = stack (PushOrPop (idle [1; 2])).
Proof.
  destruct (Pop_applies_last (Some 9) (idle [1; 2])) as [_ H].
  apply H. intros p [= <-]. split.
  - simpl. intros [H1|[H1|[]]]; discriminate H1.
  - simpl. intros [].
Defined.

Lemma erase_first_snoc (panel : rawptr) (l : list Panel) (p : Panel) :
  panel <> Some p ->
  erase_first panel (l ++ [p]) = erase_first panel l ++ [p].
Proof.
  intro Hne. induction l as [|q l IH]; cbn [app erase_first].
  - destruct (ptr_eqb (Some p) panel) eqn:Heq; [|reflexivity].
    apply ptr_eqb_eq in Heq. now elim Hne.
  - destruct (ptr_eqb (Some q) panel); [reflexivity|]. now rewrite IH.
Qed.

Lemma pop_pending_snoc (tp : list rawptr) (l : list Panel) (p : Panel) :
  ~ In (Some p) tp ->
  pop_pending tp (l ++ [p]) = pop_pending tp l ++ [p].
Proof.
  unfold pop_pending. revert l.
  induction tp as [|r tp IH]; intros l Hn; [reflexivity|].
  cbn [fold_left]. rewrite erase_first_snoc.
  - apply IH. intro; apply Hn; now right.
  - intro Hr. apply Hn. left. exact Hr.
Qed.

(** X7: A panel that is pushed and popped before the next apply step never
    comes into the stack: provided it was not in the stack or in a queue
    already, the apply step gives the stack it would have given without the
    two requests. *)
Theorem Push_then_Pop_never_enters {E : Env} (p : Panel) (s : State) :
  ~ In p (stack (ui s)) ->
  ~ In (Some p) (toPush (ui s)) ->
  ~ In (Some p) (toPop (ui s)) ->
  stack (PushOrPop (Pop (Some p) (ui (push_panel p s))))
  = stack (PushOrPop (ui s)).
Proof.
  intros Hs Hp Hq. cbn.
  rewrite pop_pending_app, !push_pending_pushed.
  unfold pushed at 1. rewrite flat_map_app. fold (pushed (toPush (ui s))).
  cbn [flat_map app]. rewrite app_assoc.
  rewrite (pop_pending_snoc _ _ _ Hq).
  cbn [pop_pending fold_left].
  rewrite <- (app_nil_r (pop_pending _ _ ++ [p])), <- app_assoc.
  cbn [app]. rewrite erase_first_lowest; [now rewrite app_nil_r|].
  intro Hin. apply pop_pending_incl in Hin. apply in_app_iff in Hin.
  destruct Hin as [Hin|Hin]; [now apply Hs|].
  apply Hp. unfold pushed in Hin. apply in_flat_map in Hin.
  destruct Hin as ([q|] & Hq' & Hp'); [|destruct Hp'].
  destruct Hp' as [->|[]]. exact Hq'.
Qed.

Lemma Push_then_Pop_never_enters_witness :
  stack (PushOrPop (Pop (Some 4)
           (ui (push_panel (E:=demo) 4
                  (mkState (E:=demo) (idle [1; 3]) 0%Z [])))))
  = stack (PushOrPop (idle [1; 3])).
Proof.
  apply (Push_then_Pop_never_enters (E:=demo) 4
           (mkState (E:=demo) (idle [1; 3]) 0%Z [])).
  - simpl. intros [H|[H|[]]]; discriminate H.
  - simpl. intros [].
  - simpl. intros [].
Defined.

(** X8: Popping through the panel on top of the stack is popping that panel,
    and popping through anything on an empty stack asks for nothing. *)
Theorem PopThrough_top_is_Pop (panel : rawptr) (u : UI) :
  (IsTop panel u = true -> PopThrough panel u = Pop panel u) /\
  (stack u = [] -> PopThrough panel u = u).
Proof.
  split.
  - unfold IsTop, PopThrough, Pop.
    destruct (rev (stack u)) as [|p l]; [discriminate|].
    intro H. cbn [popThrough_loop]. rewrite H.
    apply ptr_eqb_eq in H. now subst panel.
  - intro Hs. unfold PopThrough. rewrite Hs. cbn. now destruct u.
Qed.

Lemma PopThrough_top_is_Pop_witness :
  PopThrough (Some 2) (idle [1; 2]) = Pop (Some 2) (idle [1; 2]) /\
  PopThrough (Some 2) (idle []) = idle [].
Proof.
  destruct (PopThrough_top_is_Pop (Some 2) (idle [1; 2])) as [H1 _].
  destruct (PopThrough_top_is_Pop (Some 2) (idle [])) as [_ H2].
  split; [apply H1|apply H2]; reflexivity.
Defined.

Lemma subseq_refl (l : list Panel) : subseq l l.
Proof. induction l; constructor; assumption. Qed.

Lemma subseq_trans (a b c : list Panel) :
  subseq a b -> subseq b c -> subseq a c.
Proof.
  intros Hab Hbc. revert a Hab.
  induction Hbc as [|x b c _ IH|x b c _ IH]; intros a Hab.
  - exact Hab.
  - inversion Hab; subst; constructor; now apply IH.
  - constructor. now apply IH.
Qed.

Lemma erase_first_subseq (panel : rawptr) (st : list Panel) :
  subseq (erase_first panel st) st.
Proof.
  induction st as [|q st IH]; cbn [erase_first]; [constructor|].
  destruct (ptr_eqb (Some q) panel).
  - constructor. apply subseq_refl.
  - now constructor.
Qed.

(** X9: The apply step never reorders: the stack it leaves is the old stack
    followed by the pushed panels, with handles taken out and the others in
    their order; it takes out at most one handle for each pop request. *)
Theorem PushOrPop_keeps_order (u : UI) :
  subseq (stack (PushOrPop u)) (stack u ++ pushed (toPush u)) /\
  length (stack u ++ pushed (toPush u))
    <= length (stack (PushOrPop u)) + length (toPop u).
Proof.
  cbn. rewrite push_pending_pushed.
  generalize (stack u ++ pushed (toPush u)) as st.
  unfold pop_pending. induction (toPop u) as [|r tq IH]; intro st;
    cbn [fold_left length].
  - split; [apply subseq_refl|lia].
  - destruct (IH (erase_first r st)) as [H1 H2]. split.
    + eapply subseq_trans; [exact H1|apply erase_first_subseq].
    + pose proof (erase_first_length r st). lia.
Qed.

(** ** Events that reach no panel *)

Section Phases.

Context {E : Env}.

(** X10: When the stack is empty, or every panel in it waits to be popped,
    [Handle] calls nothing and reports the event unhandled, whatever the
    event; it still applies the queues. *)
Theorem Handle_without_turn (ev : SDL_Event) (s : State) :
  takes_turn s = false -> Handle ev s = (false, on_ui PushOrPop s).
Proof.
  intro Ht. rewrite Handle_unfold, walk_no_turn; [reflexivity|].
  intros j p Hj. destruct (queued p (ui s)) eqn:Hq; [reflexivity|].
  assert (takes_turn s = true) by (apply takes_turn_nth; eauto).
  congruence.
Qed.

Lemma turn_undelivered (ev : SDL_Event) (p : Panel) (h : bool) (s : State) :
  undelivered ev = true -> turn ev p h s = (h, s).
Proof.
  destruct ev; try discriminate; cbn [undelivered turn].
  - destruct (button =? 1)%Z; [discriminate|].
    destruct (button =? 3)%Z; [discriminate|reflexivity].
  - destruct pressed; [discriminate|reflexivity].
  - reflexivity.
Qed.

(** X11: An event of a type [Handle] does not test for, a press of a mouse button
    other than 1 and 3, and a command event whose button is not pressed are
    given to no panel, whatever the stack: [Handle] reports them unhandled
    and applies the queues. *)
Theorem Handle_undelivered_event (ev : SDL_Event) (s : State) :
  undelivered ev = true -> Handle ev s = (false, on_ui PushOrPop s).
Proof.
  intro Hu. rewrite Handle_unfold.
  assert (Hw : forall i, walk ev i false s = (false, s)).
  { induction i as [|j IH]; [reflexivity|]. cbn [walk].
    destruct (nth_error (stack (ui s)) j) as [p|]; [|reflexivity].
    destruct (queued p (ui s)); [exact IH|].
    rewrite (turn_undelivered ev p false s Hu).
    destruct (TrapAllEvents p (world s)); [reflexivity|exact IH]. }
  now rewrite Hw.
Qed.

(** X12: [DrawAll] applies nothing: whatever the panels ask for while their zones
    are cleared and while they draw stays in the queues, and the stack is the
    same after the call.  What the panels ask for while [StepAll] steps them
    is not applied by that [StepAll] either: the stack it leaves is the one
    it applied before the first step. *)
Theorem phases_defer_requests (s : State) :
  stack (ui (DrawAll s)) = stack (ui s) /\
  (exists q, toPop (ui (DrawAll s)) = toPop (ui s) ++ q) /\
  (exists t, toPush (ui (DrawAll s)) = toPush (ui s) ++ t) /\
  stack (ui (StepAll s)) = stack (PushOrPop (ui s)).
Proof.
  assert (Hd : run_rel s (DrawAll s)).
  { unfold DrawAll. eapply run_rel_trans; now apply for_stack_run_rel. }
  destruct Hd as (Hs & Hq & l & _ & _ & Hp).
  split; [exact Hs|]. split; [exact Hq|]. split; [eauto|].
  unfold StepAll.
  now destruct (for_stack_run_rel Step
                  (length (stack (ui (on_ui PushOrPop s)))) 0
                  (on_ui PushOrPop s) eq_refl) as (Hs' & _).
Qed.

(** ** The finger fields *)

Lemma call_same_fingers (p : Panel) (m : Method) (s : State) :
  same_fingers s (snd (call p m s)).
Proof. now destruct (call_log p m s) as (_ & H & _). Qed.

Lemma turn_same_fingers (ev : SDL_Event) (p : Panel) (h : bool) (s : State) :
  assigns_owner ev = false -> same_fingers s (snd (turn ev p h s)).
Proof.
  intro Ha.
  assert (Hcall : forall m s1 s0, same_fingers s0 s1 ->
                    same_fingers s0 (snd (call p m s1))).
  { intros m s1 s0 H0. eapply same_fingers_trans; [exact H0|].
    apply call_same_fingers. }
  assert (Hinj : forall c s1 s0, same_fingers s0 s1 ->
                   same_fingers s0
                     (mkState (ui s1) (InjectOnce c (world s1)) (log s1)))
    by (intros c s1 s0 H0; exact H0).
  pose proof (same_fingers_refl s) as H0.
  destruct ev; try discriminate Ha; unfold turn;
    repeat first
      [ progress cbn [fst snd negb andb]
      | solve [auto 6]
      | match goal with
        | |- context [if ?b then _ else _] => destruct b
        | |- context [call ?q ?m ?s1] =>
            let Hc := fresh "Hc" in
            assert (Hc : same_fingers s (snd (call q m s1)))
              by (apply Hcall; auto 6);
            destruct (call q m s1); cbn [fst snd] in Hc
        end ].
Qed.

(** X13: Only a touch-down and a touch-up assign the zone owner, the drag owner
    and the time of the last tap: [Handle] on any other event, [StepAll] and
    [DrawAll] leave the three as they are, whatever the panels do. *)
Theorem pointer_state_changes_on_touch_only (s : State) :
  (forall ev, assigns_owner ev = false ->
              same_fingers s (snd (Handle ev s))) /\
  same_fingers s (StepAll s) /\
  same_fingers s (DrawAll s).
Proof.
  assert (Hfor : forall m n i s0, same_fingers s0 (for_stack m n i s0)).
  { intro m. apply for_stack_stable.
    - apply same_fingers_refl.
    - apply same_fingers_trans.
    - intros p s0 _. apply call_same_fingers. }
  split; [|split].
  - intros ev Ha. rewrite Handle_unfold. cbn [snd].
    apply (same_fingers_trans s
             (snd (walk ev (length (stack (ui s))) false s)));
      [|repeat split].
    apply walk_stable.
    + apply same_fingers_refl.
    + apply same_fingers_trans.
    + intros p h s0 _ _. now apply turn_same_fingers.
  - unfold StepAll.
    apply (same_fingers_trans s (on_ui PushOrPop s)); [repeat split|].
    apply Hfor.
  - unfold DrawAll. eapply same_fingers_trans; apply Hfor.
Qed.

End Phases.

Lemma pointer_state_changes_on_touch_only_witness :
  same_fingers owners_over_1
    (snd (Handle (E:=demo) (SDL_MOUSEBUTTONUP 10 10) owners_over_1)).
Proof.
  destruct (pointer_state_changes_on_touch_only (E:=demo) owners_over_1)
    as [H _].
  apply H. reflexivity.
Defined.

Lemma Handle_without_turn_witness :
  Handle (E:=demo) tap (mkState (E:=demo) (set_toPop [Some 5] (idle [5])) 0%Z [])
  = (false,
     on_ui PushOrPop (mkState (E:=demo) (set_toPop [Some 5] (idle [5])) 0%Z [])).
Proof.
  apply (Handle_without_turn (E:=demo)). reflexivity.
Defined.

Lemma Handle_undelivered_event_witness :
  Handle (E:=demo) (SDL_MOUSEBUTTONDOWN 2 10 10 1)
         (mkState (E:=demo) (idle [5; 3]) 0%Z [])
  = (false, on_ui PushOrPop (mkState (E:=demo) (idle [5; 3]) 0%Z [])).
Proof.
  apply (Handle_undelivered_event (E:=demo)). reflexivity.
Defined.

(** ** Touches *)

Section Touches.

Context {E : Env}.

Lemma call_has (P : Method -> bool) (p : Panel) (m : Method) (s : State) :
  P SetUI = false ->
  same_fingers s (snd (call p m s)) /\
  exists l,
    log (snd (call p m s)) = log s ++ l /\
    existsb (fun c => P (method c)) l = P m.
Proof.
  intro HP. destruct (call_log p m s) as (_ & Hk & _ & l & Hl & Hf & _).
  split; [exact Hk|].
  exists (mkCall p m (stack (ui s)) :: l). split; [exact Hl|].
  cbn [existsb method].
  replace (existsb (fun c => P (method c)) l) with false;
    [apply orb_false_r|].
  clear -Hf HP. induction Hf as [|c l [Hc _] _ IH]; [reflexivity|].
  cbn [existsb]. now rewrite Hc, HP.
Qed.

(** X14: A touch-motion drags with the finger that owns the drag, and with no
    other: when the moving finger is not the drag owner, no panel has [Drag]
    called during the [Handle] call. *)
Theorem finger_motion_drags_owner_only (f : Z) (fx fy fdx fdy : float)
    (s : State) :
  panelFingerId (ui s) <> f ->
  existsb (fun c => is_Drag (method c))
          (added s (snd (Handle (SDL_FINGERMOTION f fx fy fdx fdy) s)))
  = false.
Proof.
  intro Hne. rewrite Handle_unfold. cbn [snd].
  set (ev := SDL_FINGERMOTION f fx fy fdx fdy).
  change (added s (on_ui PushOrPop (snd (walk ev (length (stack (ui s))) false s))))
    with (added s (snd (walk ev (length (stack (ui s))) false s))).
  enough (H : same_fingers s (snd (walk ev (length (stack (ui s))) false s)) /\
              exists l,
                log (snd (walk ev (length (stack (ui s))) false s))
                = log s ++ l /\
                (panelFingerId (ui s) <> f ->
                 existsb (fun c => is_Drag (method c)) l = false)).
  { destruct H as (_ & l & Hl & Hd). rewrite (added_app _ _ _ Hl). auto. }
  apply (walk_stable
           (fun a b => same_fingers a b /\
                       exists l, log b = log a ++ l /\
                                 (panelFingerId (ui a) <> f ->
                                  existsb (fun c => is_Drag (method c)) l
                                  = false))).
  - intro a. split; [apply same_fingers_refl|].
    exists []. now rewrite app_nil_r.
  - intros a b c (Hk1 & l1 & Hl1 & Hd1) (Hk2 & l2 & Hl2 & Hd2).
    split; [eapply same_fingers_trans; eassumption|].
    exists (l1 ++ l2). split; [rewrite Hl2, Hl1; now rewrite app_assoc|].
    intro Ha. rewrite existsb_app, (Hd1 Ha), Hd2; [reflexivity|].
    destruct Hk1 as (_ & Hp & _). now rewrite Hp.
  - intros p h a _ _. unfold ev, turn. destruct h; cbn [negb andb fst snd].
    + split; [apply same_fingers_refl|]. exists []. now rewrite app_nil_r.
    + set (x := finger_pos fx (Screen_Width (world a))).
      set (y := finger_pos fy (Screen_Height (world a))).
      destruct (call_has is_Drag p (FingerMove x y f) a eq_refl)
        as (Hk1 & l1 & Hl1 & Hd1).
      destruct (call p (FingerMove x y f) a) as [h1 s1].
      cbn [fst snd] in *. destruct h1; cbn [negb andb snd].
      * split; [exact Hk1|]. exists l1. split; [exact Hl1|]. now intros _.
      * destruct (Z.eqb_spec (panelFingerId (ui s1)) f) as [Ep|Ep].
        -- match goal with
           | |- context [call p ?m s1] =>
               destruct (call_has is_Drag p m s1 eq_refl)
                 as (Hk2 & l2 & Hl2 & _);
               destruct (call p m s1) as [h2 s2]
           end.
           cbn [fst snd] in *.
           split; [eapply same_fingers_trans; eassumption|].
           exists (l1 ++ l2). split; [rewrite Hl2, Hl1; now rewrite app_assoc|].
           intro Ha. destruct Hk1 as (_ & Hp & _). congruence.
        -- cbn [snd]. split; [exact Hk1|]. exists l1.
           split; [exact Hl1|]. now intros _.
Qed.

(** One turn of a touch-down. *)
Lemma down_turn (f : Z) (fx fy : float) (p : Panel) (s : State) :
  let r := turn (SDL_FINGERDOWN f fx fy) p false s in
  (zoneFingerId (ui (snd r)) = zoneFingerId (ui s) \/
   zoneFingerId (ui (snd r)) = f) /\
  (panelFingerId (ui (snd r)) = panelFingerId (ui s) \/
   panelFingerId (ui (snd r)) = f) /\
  (fst r = false ->
   zoneFingerId (ui (snd r)) = zoneFingerId (ui s) /\
   panelFingerId (ui (snd r)) = panelFingerId (ui s)).
Proof.
  unfold turn, click_fallback. cbn [negb].
  set (x := finger_pos fx (Screen_Width (world s))).
  set (y := finger_pos fy (Screen_Height (world s))).
  pose proof (call_same_fingers p (ZoneMouseDown x y) s) as (Hz1 & Hp1 & _).
  destruct (call p (ZoneMouseDown x y) s) as [h1 s1]. cbn [fst snd] in *.
  destruct h1; cbn [negb fst snd].
  { cbn. split; [now right|]. split; [now left|discriminate]. }
  pose proof (call_same_fingers p (Hover x y) s1) as (Hz2 & Hp2 & _).
  destruct (call p (Hover x y) s1) as [hh s2]. cbn [fst snd] in *.
  pose proof (call_same_fingers p (FingerDown x y f) s2) as (Hz3 & Hp3 & _).
  destruct (call p (FingerDown x y f) s2) as [h3 s3]. cbn [fst snd] in *.
  destruct h3; cbn [negb fst snd].
  { split; [left; congruence|]. split; [left; congruence|discriminate]. }
  match goal with
  | |- context [call p ?m s3] =>
      pose proof (call_same_fingers p m s3) as (Hz4 & Hp4 & _);
      destruct (call p m s3) as [h4 s4]
  end.
  cbn [fst snd] in *. destruct h4; cbn.
  - split; [left; congruence|]. split; [now right|discriminate].
  - split; [left; congruence|]. split; [left; congruence|].
    intros _. split; congruence.
Qed.

(** X15: A touch-down makes finger [f] an owner only by being taken: after the
    [Handle] call each owner is what it was or is [f], and when the call
    reports the event unhandled both owners are what they were. *)
Theorem finger_down_owner_needs_handled (f : Z) (fx fy : float) (s : State) :
  let r := Handle (SDL_FINGERDOWN f fx fy) s in
  (zoneFingerId (ui (snd r)) = zoneFingerId (ui s) \/
   zoneFingerId (ui (snd r)) = f) /\
  (panelFingerId (ui (snd r)) = panelFingerId (ui s) \/
   panelFingerId (ui (snd r)) = f) /\
  (fst r = false ->
   zoneFingerId (ui (snd r)) = zoneFingerId (ui s) /\
   panelFingerId (ui (snd r)) = panelFingerId (ui s)).
Proof.
  cbv zeta. rewrite Handle_unfold. cbn [fst snd].
  set (ev := SDL_FINGERDOWN f fx fy).
  change (ui (on_ui PushOrPop (snd (walk ev (length (stack (ui s))) false s))))
    with (PushOrPop (ui (snd (walk ev (length (stack (ui s))) false s)))).
  change (zoneFingerId (PushOrPop (ui (snd (walk ev (length (stack (ui s))) false s)))))
    with (zoneFingerId (ui (snd (walk ev (length (stack (ui s))) false s)))).
  change (panelFingerId (PushOrPop (ui (snd (walk ev (length (stack (ui s))) false s)))))
    with (panelFingerId (ui (snd (walk ev (length (stack (ui s))) false s)))).
  generalize (length (stack (ui s))) as i.
  intro i. revert s. induction i as [|j IH]; intro s; cbn [walk].
  - cbn. auto.
  - destruct (nth_error (stack (ui s)) j) as [p|]; [|cbn; auto].
    destruct (queued p (ui s)); [apply IH|].
    pose proof (down_turn f fx fy p s) as Ht. fold ev in Ht.
    destruct (turn ev p false s) as [h' s']. cbn [fst snd] in Ht.
    destruct (TrapAllEvents p (world s')); [exact Ht|].
    destruct h'.
    + rewrite walk_handled. exact Ht.
    + destruct Ht as (_ & _ & Hsame). destruct (Hsame eq_refl) as [Hz Hp].
      specialize (IH s'). rewrite Hz, Hp in IH. exact IH.
Qed.

End Touches.

Lemma finger_down_owner_needs_handled_witness :
  zoneFingerId (ui first_tap) = no_finger /\
  panelFingerId (ui first_tap) = no_finger.
Proof.
  destruct (finger_down_owner_needs_handled (E:=demo) 7 10 10
              (mkState (E:=demo) (idle [1]) 1000%Z [])) as (_ & _ & H).
  apply H. reflexivity.
Defined.

Lemma finger_motion_drags_owner_only_witness :
  existsb (fun c => is_Drag (method c))
    (added owners_over_1
       (snd (Handle (E:=demo) (SDL_FINGERMOTION 4 10 10 1 1) owners_over_1)))
  = false.
Proof.
  apply (finger_motion_drags_owner_only (E:=demo)). discriminate.
Defined.

(** ** Handled events and idle controllers *)

Section Results.

Context {E : Env}.

(** One turn that reports the event handled has called the panel. *)
Lemma turn_called (ev : SDL_Event) (p : Panel) (s : State) :
  fst (turn ev p false s) = true ->
  exists l,
    log (snd (turn ev p false s)) = log s ++ l /\
    existsb (fun c => is_delivery (method c)) l = true.
Proof.
  destruct ev; unfold turn, click_fallback;
    repeat first
      [ progress cbn [fst snd negb andb]
      | match goal with
        | |- context [if ?b then _ else _] => destruct b
        | |- context [call ?q ?m ?s1] =>
            let l := fresh "l" in
            let Hl := fresh "Hl" in
            let Hd := fresh "Hd" in
            destruct (call_has is_delivery q m s1 eq_refl)
              as (_ & l & Hl & Hd);
            destruct (call q m s1);
            cbn [fst snd log is_delivery] in Hl, Hd
        end ];
    intro Hh; try discriminate Hh;
    cbn [log on_ui] in *;
    repeat match goal with
           | H : log _ = _ |- _ => rewrite H; clear H
           end;
    (eexists; split; [rewrite <- ?app_assoc; reflexivity|]);
    rewrite ?existsb_app;
    repeat match goal with
           | H : existsb _ _ = true |- _ => rewrite H; clear H
           end;
    rewrite ?orb_true_r; reflexivity.
Qed.

(** X16: [Handle] never reports an event handled without having given it to a
    panel: when it returns true, some event-delivery method was called during
    the call. *)
Theorem handled_means_called (ev : SDL_Event) (s : State) :
  fst (Handle ev s) = true ->
  existsb (fun c => is_delivery (method c)) (added s (snd (Handle ev s)))
  = true.
Proof.
  rewrite Handle_unfold. cbn [fst snd].
  change (added s (on_ui PushOrPop (snd (walk ev (length (stack (ui s))) false s))))
    with (added s (snd (walk ev (length (stack (ui s))) false s))).
  generalize (length (stack (ui s))) as i. intro i. revert s.
  induction i as [|j IH]; intro s; cbn [walk]; [discriminate|].
  destruct (nth_error (stack (ui s)) j) as [p|]; [|discriminate].
  destruct (queued p (ui s)); [apply IH|].
  pose proof (turn_called ev p s) as Ht.
  pose proof (turn_turn_rel ev p false s) as (_ & _ & l1 & Hl1 & _).
  destruct (turn ev p false s) as [h' s']. cbn [fst snd] in *.
  assert (Hturn : h' = true ->
            existsb (fun c => is_delivery (method c)) (added s s') = true).
  { intro Hh. destruct (Ht Hh) as (l & Hl & Hd).
    now rewrite (added_app _ _ _ Hl). }
  destruct (TrapAllEvents p (world s')); [exact Hturn|].
  destruct h'.
  - rewrite walk_handled. cbn [fst snd]. exact Hturn.
  - intro Hw. specialize (IH s' Hw).
    pose proof (run_rel_added _ _ (walk_run_rel ev j false s')) as Hl2.
    rewrite Hl1, <- app_assoc in Hl2.
    rewrite (added_app _ _ _ Hl2), existsb_app, IH. apply orb_true_r.
Qed.

Lemma pop_pending_nil (tp : list rawptr) : pop_pending tp [] = [].
Proof.
  unfold pop_pending. induction tp as [|r tp IH]; [reflexivity|exact IH].
Qed.

Lemma host_step_idle (s : State) (c : HostCall) :
  stack (ui s) = [] -> toPush (ui s) = [] ->
  match c with HPush _ => false | _ => true end = true ->
  stack (ui (host_step s c)) = [] /\
  toPush (ui (host_step s c)) = [] /\
  log (host_step s c) = log s /\
  world (host_step s c) = world s.
Proof.
  intros Hs Hp Hc.
  assert (Happ : stack (PushOrPop (ui s)) = []).
  { cbn. rewrite Hs, Hp. apply pop_pending_nil. }
  destruct c as [p|panel|panel|ev| | | | |b]; cbn [host_step];
    try discriminate Hc.
  - now cbn.
  - now cbn.
  - rewrite Handle_unfold, Hs. cbn [length walk snd].
    repeat split. exact Happ.
  - unfold StepAll. cbn [on_ui ui]. rewrite Happ. cbn [length for_stack].
    repeat split. exact Happ.
  - unfold DrawAll. rewrite Hs. cbn [length for_stack]. rewrite Hs.
    cbn [length find_fullscreen Nat.sub for_stack]. now repeat split.
  - now cbn.
  - now cbn.
  - now cbn.
Qed.

(** X17: After [Reset], and as long as the host pushes nothing, the controller
    stays empty and no method of any panel is called, whatever events are
    handled and whichever phases run: only a push brings a controller back to
    life. *)
Theorem empty_stays_empty_without_Push (s : State) (cs : list HostCall) :
  no_push cs = true ->
  IsEmpty (ui (run cs (on_ui Reset s))) = true /\
  log (run cs (on_ui Reset s)) = log s /\
  world (run cs (on_ui Reset s)) = world s.
Proof.
  intro Hn.
  enough (H : forall s0, stack (ui s0) = [] -> toPush (ui s0) = [] ->
              stack (ui (run cs s0)) = [] /\ toPush (ui (run cs s0)) = [] /\
              log (run cs s0) = log s0 /\ world (run cs s0) = world s0).
  { destruct (H (on_ui Reset s) eq_refl eq_refl) as (H1 & H2 & H3 & H4).
    unfold IsEmpty. rewrite H1, H2. now repeat split. }
  unfold run. induction cs as [|c cs IH]; intros s0 Hs Hp; cbn [fold_left].
  - now repeat split.
  - cbn [no_push forallb] in Hn. apply andb_true_iff in Hn.
    destruct Hn as [Hc Hn].
    destruct (host_step_idle s0 c Hs Hp Hc) as (H1 & H2 & H3 & H4).
    destruct (IH Hn (host_step s0 c) H1 H2) as (G1 & G2 & G3 & G4).
    repeat split; congruence.
Qed.

End Results.

Lemma handled_means_called_witness :
  existsb (fun c => is_delivery (method c))
    (added (mkState (E:=demo) (idle [1; 3]) 0%Z [])
       (snd (Handle (E:=demo) (SDL_MOUSEBUTTONDOWN 1 10 10 1)
               (mkState (E:=demo) (idle [1; 3]) 0%Z []))))
  = true.
Proof.
  apply (handled_means_called (E:=demo)). reflexivity.
Defined.

Lemma empty_stays_empty_without_Push_witness :
  IsEmpty (ui (run (E:=demo) [HHandle tap; HPop (Some 1); HStepAll; HDrawAll]
                 (on_ui Reset first_tap))) = true.
Proof.
  destruct (empty_stays_empty_without_Push (E:=demo) first_tap
              [HHandle tap; HPop (Some 1); HStepAll; HDrawAll] eq_refl)
    as [H _].
  exact H.
Defined.

Section Queues.

Context {E : Env}.

Lemma popThrough_loop_acc (l : list Panel) (panel : rawptr) (q : list rawptr) :
  popThrough_loop l panel q = q ++ popThrough_loop l panel [].
Proof.
  revert q. induction l as [|x l IH]; intro q; cbn [popThrough_loop].
  - now rewrite app_nil_r.
  - destruct (ptr_eqb (Some x) panel); [reflexivity|].
    rewrite (IH (q ++ [Some x])). cbn [app]. rewrite (IH [Some x]).
    now rewrite app_assoc.
Qed.

(** What a list of requests does to the queues. *)
Lemma apply_requests_queues (reqs : list Request) (s : State) :
  stack (ui (fold_left apply_request reqs s)) = stack (ui s) /\
  toPush (ui (fold_left apply_request reqs s))
  = toPush (ui s) ++ map Some (asked_pushes reqs) /\
  toPop (ui (fold_left apply_request reqs s))
  = toPop (ui s) ++ asked_pops (stack (ui s)) reqs.
Proof.
  revert s. induction reqs as [|r reqs IH]; intro s; cbn [fold_left].
  - cbn. now rewrite !app_nil_r.
  - destruct (IH (apply_request s r)) as (Hs & Hp & Hq).
    rewrite Hs, Hp, Hq.
    unfold asked_pushes, asked_pops. cbn [flat_map]. rewrite map_app.
    fold (asked_pushes reqs).
    destruct r as [p|panel|panel| |b]; cbn [apply_request];
      cbn; rewrite ?app_nil_r, <- ?app_assoc; repeat split; try reflexivity.
    rewrite (popThrough_loop_acc _ _ (toPop (ui s))).
    now rewrite <- app_assoc.
Qed.

Lemma call_queues (p : Panel) (m : Method) (s : State) :
  stack (ui (snd (call p m s))) = stack (ui s) /\
  toPush (ui (snd (call p m s)))
  = toPush (ui s) ++ map Some (asked_pushes (snd (invoke p m (ui s) (world s)))) /\
  toPop (ui (snd (call p m s)))
  = toPop (ui s)
    ++ asked_pops (stack (ui s)) (snd (invoke p m (ui s) (world s))).
Proof.
  unfold call. destruct (invoke p m (ui s) (world s)) as [[r w] reqs].
  cbn [snd].
  exact (apply_requests_queues reqs
           (mkState (ui s) w (log s ++ [mkCall p m (stack (ui s))]))).
Qed.

End Queues.

Section Deferral.

Context {E : Env}.

(** The record is only written. *)
Lemma apply_requests_asked (reqs : list Request) (s : @State (recording E)) :
  asked (fold_left (@apply_request (recording E)) reqs s) = asked s.
Proof.
  revert s. induction reqs as [|r reqs IH]; intro s; cbn [fold_left];
    [reflexivity|].
  rewrite IH. now destruct r.
Qed.

Lemma call_asked (p : Panel) (m : Method) (s : @State (recording E)) :
  asked (snd (@call (recording E) p m s))
  = asked s ++ snd (@invoke E p m (ui s) (fst (world s))).
Proof.
  unfold call. cbn [invoke recording].
  destruct (@invoke E p m (ui s) (fst (world s))) as [[r w] reqs].
  cbn [snd]. now rewrite apply_requests_asked.
Qed.

Lemma asked_rel_refl (s : @State (recording E)) : asked_rel s s.
Proof.
  split; [reflexivity|]. exists []. cbn. now rewrite !app_nil_r.
Qed.

Lemma asked_pops_app (st : list Panel) (r1 r2 : list Request) :
  asked_pops st (r1 ++ r2) = asked_pops st r1 ++ asked_pops st r2.
Proof. apply flat_map_app. Qed.

Lemma asked_pushes_app (r1 r2 : list Request) :
  asked_pushes (r1 ++ r2) = asked_pushes r1 ++ asked_pushes r2.
Proof. apply flat_map_app. Qed.

Lemma asked_rel_trans (a b c : @State (recording E)) :
  asked_rel a b -> asked_rel b c -> asked_rel a c.
Proof.
  intros (Hs1 & r1 & Ha1 & Hp1 & Hq1) (Hs2 & r2 & Ha2 & Hp2 & Hq2).
  split; [congruence|]. exists (r1 ++ r2).
  rewrite Ha2, Ha1, Hp2, Hp1, Hq2, Hq1, Hs1.
  rewrite asked_pushes_app, asked_pops_app, map_app, !app_assoc.
  auto.
Qed.

Lemma asked_rel_same (s s' : @State (recording E)) :
  stack (ui s') = stack (ui s) -> toPush (ui s') = toPush (ui s) ->
  toPop (ui s') = toPop (ui s) -> asked s' = asked s ->
  asked_rel s s'.
Proof.
  intros Hs Hp Hq Ha. split; [exact Hs|]. exists []. cbn.
  now rewrite !app_nil_r.
Qed.

Lemma walk_asked_rel (ev : SDL_Event) (i : nat) (h : bool)
    (s : @State (recording E)) :
  asked_rel s (snd (@walk (recording E) ev i h s)).
Proof.
  apply walk_stable.
  - apply asked_rel_refl.
  - apply asked_rel_trans.
  - intros p h0 s0 _ _. apply turn_stable.
    + apply asked_rel_refl.
    + apply asked_rel_trans.
    + intros m s1 _. destruct (call_queues (E:=recording E) p m s1)
        as (Hs & Hp & Hq).
      split; [exact Hs|].
      exists (snd (@invoke E p m (ui s1) (fst (world s1)))).
      split; [apply call_asked|].
      cbn [invoke recording] in Hp, Hq.
      destruct (@invoke E p m (ui s1) (fst (world s1))) as [[r w] reqs].
      cbn [snd] in *. auto.
    + intros; now apply asked_rel_same.
    + intros; now apply asked_rel_same.
    + intros; now apply asked_rel_same.
    + intros; now apply asked_rel_same.
Qed.

(** The run in the recording world is the run in [E], with the record
    beside it. *)
Lemma apply_requests_erase (reqs : list Request) (s : @State (recording E)) :
  erase (fold_left (@apply_request (recording E)) reqs s)
  = fold_left (@apply_request E) reqs (erase s).
Proof.
  revert s. induction reqs as [|r reqs IH]; intro s; cbn [fold_left];
    [reflexivity|].
  rewrite IH. f_equal. now destruct r.
Qed.

Lemma call_erase (p : Panel) (m : Method) (s : @State (recording E)) :
  @call E p m (erase s)
  = (fst (@call (recording E) p m s), erase (snd (@call (recording E) p m s))).
Proof.
  unfold call. cbn [invoke recording erase ui world log].
  destruct (@invoke E p m (ui s) (fst (world s))) as [[r w] reqs].
  cbn [fst snd]. now rewrite apply_requests_erase.
Qed.

Lemma turn_erase (ev : SDL_Event) (p : Panel) (h : bool)
    (s : @State (recording E)) :
  @turn E ev p h (erase s)
  = (fst (@turn (recording E) ev p h s),
     erase (snd (@turn (recording E) ev p h s))).
Proof.
  destruct ev; unfold turn, click_fallback;
    repeat first
      [ progress cbn [fst snd negb andb erase ui world log on_ui
                     set_zoneFingerId set_panelFingerId set_lastTap
                     zoneFingerId panelFingerId lastTap]
      | match goal with
        | |- context [if ?b then _ else _] => destruct b
        | |- context [@call (recording E) ?q ?m ?s1] =>
            let H := fresh "H" in
            pose proof (call_erase q m s1) as H;
            destruct (@call (recording E) q m s1);
            cbn [fst snd] in H;
            match goal with
            | |- context [@call E q ?m' ?s'] =>
                replace (@call E q m' s') with
                  (@call E q m (erase s1)) by reflexivity
            end;
            rewrite H; clear H
        end ];
    reflexivity.
Qed.

Lemma walk_erase (ev : SDL_Event) (i : nat) (h : bool)
    (s : @State (recording E)) :
  @walk E ev i h (erase s)
  = (fst (@walk (recording E) ev i h s),
     erase (snd (@walk (recording E) ev i h s))).
Proof.
  revert h s. induction i as [|j IH]; intros h s; cbn [walk];
    [reflexivity|].
  destruct h; [reflexivity|]. cbn [erase ui].
  destruct (nth_error (stack (ui s)) j) as [p|]; [|reflexivity].
  destruct (queued p (ui s)); [apply IH|].
  pose proof (turn_erase ev p false s) as Ht. cbn [erase ui] in Ht.
  rewrite Ht.
  destruct (@turn (recording E) ev p false s) as [h' s']. cbn [fst snd].
  change (@TrapAllEvents (recording E) p (world s'))
    with (@TrapAllEvents E p (world (erase s'))).
  destruct (@TrapAllEvents E p (world (erase s'))); [reflexivity|apply IH].
Qed.

Lemma erase_record (s : @State E) : erase (record s) = s.
Proof. now destruct s. Qed.

Lemma pushed_app_panels (tp : list handle) (l : list Panel) :
  pushed (tp ++ map Some l) = pushed tp ++ l.
Proof.
  unfold pushed. rewrite flat_map_app. f_equal.
  induction l as [|x l IH]; [reflexivity|]. cbn. now rewrite IH.
Qed.

Lemma occurrences_cons (p q : Panel) (st : list Panel) :
  occurrences p (q :: st)
  = (if Nat.eqb p q then 1 else 0) + occurrences p st.
Proof. unfold occurrences. cbn [filter]. now destruct (Nat.eqb p q). Qed.

Lemma erase_first_occurrences (p : Panel) (panel : rawptr) (st : list Panel) :
  occurrences p (erase_first panel st)
  = occurrences p st - (if ptr_eqb (Some p) panel then 1 else 0).
Proof.
  induction st as [|q st IH]; [reflexivity|]. cbn [erase_first].
  destruct (ptr_eqb (Some q) panel) eqn:Hq.
  - apply ptr_eqb_eq in Hq. subst panel. rewrite occurrences_cons.
    rewrite ptr_eqb_Some. destruct (Nat.eqb p q); lia.
  - rewrite !occurrences_cons, IH.
    destruct (Nat.eqb_spec p q) as [->|_]; [|lia].
    rewrite Hq. lia.
Qed.

Lemma pop_pending_occurrences (p : Panel) (tq : list rawptr)
    (st : list Panel) :
  occurrences p (pop_pending tq st) = occurrences p st - requests_for p tq.
Proof.
  unfold pop_pending, requests_for. revert st.
  induction tq as [|r tq IH]; intro st; cbn [fold_left filter length];
    [lia|].
  rewrite IH, erase_first_occurrences.
  destruct (ptr_eqb (Some p) r); cbn [length]; lia.
Qed.

Lemma pop_pending_subseq (tq : list rawptr) (st : list Panel) :
  subseq (pop_pending tq st) st.
Proof.
  unfold pop_pending. revert st.
  induction tq as [|r tq IH]; intro st; cbn [fold_left];
    [apply subseq_refl|].
  eapply subseq_trans; [apply IH|apply erase_first_subseq].
Qed.

(** C6: whatever the panels request while [Handle] walks the stack, every
    call made during that walk is made with the stack as it was when
    [Handle] was entered, and the stack is still that one when the walk ends;
    the requests take effect in the apply step that ends the call, which
    leaves both queues empty.  [StepAll] applies before it steps: its calls
    see the applied stack, and it steps the panels of that stack from the
    bottom up.  What a panel requests from inside a method goes to the ends
    of the two queues, in order, and so do all the requests made during the
    walk; the stack after the call is the stack of the entry with the pushed
    panels on top, the pending ones first and then the ones pushed during the
    walk, from which the apply step has taken one handle for each pointer of
    the pop queue that finds one, the earlier pointers first and then the
    ones asked for during the walk, and nothing else. *)
Theorem Handle_defers_mutations (ev : SDL_Event) (s : State) :
  let walked := snd (walk ev (length (stack (ui s))) false s) in
  let after := snd (Handle ev s) in
  let asks := requests_during ev s in
  let on_top := stack (ui s) ++ pushed (toPush (ui s)) ++ asked_pushes asks in
  let to_go := toPop (ui s) ++ asked_pops (stack (ui s)) asks in
  Forall (fun c => seen c = stack (ui s)) (added s after) /\
  stack (ui walked) = stack (ui s) /\
  ui after = PushOrPop (ui walked) /\
  stack (ui after)
    = pop_pending (toPop (ui walked))
        (push_pending (toPush (ui walked)) (stack (ui s))) /\
  toPush (ui after) = [] /\
  toPop (ui after) = [] /\
  Forall (fun c => seen c = stack (PushOrPop (ui s))) (added s (StepAll s)) /\
  panel_calls (added s (StepAll s))
    = map (fun p => (p, Step)) (stack (PushOrPop (ui s))) /\
  (forall p m s1,
      stack (ui (snd (call p m s1))) = stack (ui s1) /\
      toPush (ui (snd (call p m s1)))
      = toPush (ui s1)
        ++ map Some (asked_pushes (snd (invoke p m (ui s1) (world s1)))) /\
      toPop (ui (snd (call p m s1)))
      = toPop (ui s1)
        ++ asked_pops (stack (ui s1)) (snd (invoke p m (ui s1) (world s1)))) /\
  (forall p m (r : @State (recording E)),
      @call E p m (erase r)
      = (fst (@call (recording E) p m r),
         erase (snd (@call (recording E) p m r))) /\
      asked (snd (@call (recording E) p m r))
      = asked r ++ snd (@invoke E p m (ui (erase r)) (world (erase r)))) /\
  walk ev (length (stack (ui s))) false s
  = (fst (@walk (recording E) ev (length (stack (ui s))) false (record s)),
     erase (snd (@walk (recording E) ev (length (stack (ui s))) false
                   (record s)))) /\
  toPush (ui walked) = toPush (ui s) ++ map Some (asked_pushes asks) /\
  toPop (ui walked) = to_go /\
  stack (ui after) = pop_pending to_go on_top /\
  (forall p,
      occurrences p (stack (ui after))
      = occurrences p on_top - requests_for p to_go) /\
  subseq (stack (ui after)) on_top /\
  (to_go = [] -> stack (ui after) = on_top).
Proof.
  intros walked after asks on_top to_go.
  assert (Hafter : after = on_ui PushOrPop walked).
  { unfold after. now rewrite Handle_unfold. }
  pose proof (walk_run_rel ev (length (stack (ui s))) false s) as Hr.
  fold walked in Hr. destruct Hr as (Hs & _ & l & Hl & Hf & _).
  assert (Hsim : walk ev (length (stack (ui s))) false s
                 = (fst (@walk (recording E) ev (length (stack (ui s))) false
                           (record s)),
                    erase (snd (@walk (recording E) ev
                                  (length (stack (ui s))) false (record s))))).
  { pose proof (walk_erase ev (length (stack (ui s))) false (record s)) as H.
    now rewrite erase_record in H. }
  destruct (walk_asked_rel ev (length (stack (ui s))) false (record s))
    as (_ & reqs & Ha & Hp & Hq).
  assert (Hreqs : reqs = asks).
  { unfold asks, requests_during. rewrite Ha. reflexivity. }
  subst reqs.
  assert (Hw : ui walked
               = ui (snd (@walk (recording E) ev (length (stack (ui s))) false
                            (record s)))).
  { unfold walked. now rewrite Hsim. }
  assert (Hpush : toPush (ui walked)
                  = toPush (ui s) ++ map Some (asked_pushes asks))
    by (rewrite Hw; exact Hp).
  assert (Hpop : toPop (ui walked) = to_go) by (rewrite Hw; exact Hq).
  assert (Hstack : stack (ui after) = pop_pending to_go on_top).
  { rewrite Hafter. cbn [on_ui ui]. cbn [PushOrPop stack set_toPop set_toPush
      set_stack].
    change (stack (set_toPop [] (set_toPush []
              (set_stack (pop_pending (toPop (ui walked))
                            (push_pending (toPush (ui walked))
                               (stack (ui walked)))) (ui walked)))))
      with (pop_pending (toPop (ui walked))
              (push_pending (toPush (ui walked)) (stack (ui walked)))).
    rewrite push_pending_pushed, Hpop, Hpush, Hs, pushed_app_panels.
    reflexivity. }
  split.
  { rewrite Hafter. rewrite (added_app s (on_ui PushOrPop walked) l Hl).
    eapply Forall_impl; [|exact Hf]. now intros c [Hc _]. }
  split; [exact Hs|]. split; [now rewrite Hafter|]. split.
  { rewrite Hafter. cbn. now rewrite Hs. }
  split; [now rewrite Hafter|]. split; [now rewrite Hafter|].
  assert (Hstep :
    Forall (fun c => seen c = stack (PushOrPop (ui s))) (added s (StepAll s)) /\
    panel_calls (added s (StepAll s))
    = map (fun p => (p, Step)) (stack (PushOrPop (ui s)))).
  { unfold StepAll. set (s1 := on_ui PushOrPop s).
    assert (Hadd : added s (for_stack Step (length (stack (ui s1))) 0 s1)
                   = added s1 (for_stack Step (length (stack (ui s1))) 0 s1))
      by reflexivity.
    rewrite Hadd. split.
    - destruct (for_stack_run_rel Step (length (stack (ui s1))) 0 s1 eq_refl)
        as (_ & _ & l1 & Hl1 & Hf1 & _).
      rewrite (added_app _ _ _ Hl1).
      eapply Forall_impl; [|exact Hf1]. now intros c [Hc _].
    - rewrite for_stack_calls by reflexivity.
      cbn [skipn]. now rewrite firstn_all. }
  split; [apply Hstep|]. split; [apply Hstep|].
  split; [intros p m s1; apply call_queues|].
  split; [intros p m r; split; [apply call_erase|apply call_asked]|].
  split; [exact Hsim|]. split; [exact Hpush|]. split; [exact Hpop|].
  split; [exact Hstack|]. split; [|split].
  - intro p. rewrite Hstack. apply pop_pending_occurrences.
  - rewrite Hstack. apply pop_pending_subseq.
  - intro Hnone. rewrite Hstack, Hnone. reflexivity.
Qed.

End Deferral.

(** The spec's own example: panel 3 on top of panel 1 takes a click, pops
    itself and pushes panel 4. *)
Example click_requests :
  requests_during press (mkState (E:=demo) (idle [1; 3]) 0%Z [])
  = [ReqPop (Some 3); ReqPush 4] /\
  stack (ui (snd (Handle (E:=demo) press
                    (mkState (E:=demo) (idle [1; 3]) 0%Z [])))) = [1; 4].
Proof. split; reflexivity. Qed.

Lemma Handle_defers_mutations_witness :
  stack (ui (snd (Handle (E:=demo) press
                    (mkState (E:=demo) (idle [1]) 0%Z []))))
  = stack (idle [1]) ++ pushed (toPush (idle [1]))
    ++ asked_pushes
         (requests_during press (mkState (E:=demo) (idle [1]) 0%Z [])).
Proof.
  pose proof (Handle_defers_mutations (E:=demo) press
                (mkState (E:=demo) (idle [1]) 0%Z [])) as H.
  cbv zeta in H.
  destruct H as (_ & _ & _ & _ & _ & _ & _ & _ & _ & _ & _ & _ & _ & _ & _
                 & _ & Hnone).
  apply Hnone. reflexivity.
Defined.

Example logical_x_wraps :
  logical_x (E:=demo) 0%Z 30000000 = (-12950172)%Z /\
  logical_x (E:=demo) 0%Z 10 = (-490)%Z.
Proof. split; reflexivity. Qed.
